(** * ReplServer: replication loop and eventual-consistency pass

    A shallow embedding of [src/src/ReplServer.cpp].  The plot database is a
    [std::list<DronePlot>] and is modelled as a [list DronePlot]; iterators
    become positions in that list.  The headers [DronePlotDB.h] and
    [QueueMgr.h] are not part of the sources, so what [ReplServer.cpp] uses
    from them is either a section variable (coordinate type and its [==],
    [DronePlot::getDataSize], [serialize], [deserialize], [DBFLAG_NEW]) or a
    definition modelled from the specification, marked as such. *)

From Stdlib Require Import ZArith NArith List Bool Lia Permutation Sorted.
From Stdlib Require Import Strings.Byte.
Import ListNotations.

Set Implicit Arguments.

(** ** Machine integers *)

(** [int] is a 32-bit two's complement integer.  Storing a wider value in an
    [int] keeps its low 32 bits. *)
Definition to_int (z : Z) : Z := ((z + 2 ^ 31) mod 2 ^ 32 - 2 ^ 31)%Z.

Definition int_range (z : Z) : Prop := (- 2 ^ 31 <= z < 2 ^ 31)%Z.

(** [time_t] is a 64-bit two's complement integer; a sum that leaves its
    range comes back into it modulo 2^64. *)
Definition to_time_t (z : Z) : Z := ((z + 2 ^ 63) mod 2 ^ 64 - 2 ^ 63)%Z.

Definition time_t_range (z : Z) : Prop := (- 2 ^ 63 <= z < 2 ^ 63)%Z.

(** [unsigned int] arithmetic is modulo 2^32. *)
Definition to_uint (n : N) : N := (n mod 2 ^ 32)%N.

(** [v.size() - 1] on a [size_t]: an empty vector gives [SIZE_MAX]. *)
Definition SIZE_MAX : N := (2 ^ 64 - 1)%N.

Definition size_minus_one (size : N) : N :=
  if (size =? 0)%N then SIZE_MAX else (size - 1)%N.

(** ** Outcomes of a call *)

(** The two [std::runtime_error]s of [addReplDronePlots] and the one of
    [queueNewPlots], named after the condition they report. *)
Inductive runtime_error : Type :=
| TruncatedBatch    (* "Not enough data passed into addReplDronePlots" *)
| MisalignedBatch   (* "... was not the right multiple of DronePlot size" *)
| MarshallingIssue. (* "Issue with marshalling!" *)

(** A call runs on a state [S]: it returns a value and leaves a state, or
    throws and leaves a state, or reads outside a vector, after which
    nothing is defined. *)
Inductive result (S A : Type) : Type :=
| Ok (a : A) (s : S)
| Throw (e : runtime_error) (s : S)
| OutOfBounds.

Arguments Ok {S A} a s.
Arguments Throw {S A} e s.
Arguments OutOfBounds {S A}.

Definition and_then {S A B : Type} (r : result S A)
    (k : A -> S -> result S B) : result S B :=
  match r with
  | Ok a s => k a s
  | Throw e s => Throw e s
  | OutOfBounds => OutOfBounds
  end.

(** A loop over the tail of a list leaves the head in front of it. *)
Definition with_state {S T A : Type} (f : S -> T) (r : result S A)
    : result T A :=
  match r with
  | Ok a s => Ok a (f s)
  | Throw e s => Throw e (f s)
  | OutOfBounds => OutOfBounds
  end.

(** An outcome that leaves a state leaves one that [P] holds of. *)
Definition leaves {S A : Type} (P : S -> Prop) (r : result S A) : Prop :=
  match r with
  | Ok _ s => P s
  | Throw _ s => P s
  | OutOfBounds => True
  end.

(** [v[i]] on a [std::vector]: defined only below [v.size()]. *)
Definition vec_at {A : Type} (v : list A) (i : N) : option A :=
  if (i <? N.of_nat (length v))%N then nth_error v (N.to_nat i) else None.

(** ** Drone plots *)

Section Plots.

(** The type of [latitude] and [longitude] and its [==]. *)
Variable coord : Type.
Variable coord_eqb : coord -> coord -> bool.

Record DronePlot : Type := mkPlot {
  drone_id  : N;       (* unsigned int *)
  node_id   : N;       (* unsigned int *)
  timestamp : Z;       (* time_t *)
  latitude  : coord;
  longitude : coord;
  flags     : N        (* bit mask read by isFlagSet, written by clrFlags *)
}.

Definition set_timestamp (p : DronePlot) (t : Z) : DronePlot :=
  mkPlot (drone_id p) (node_id p) t (latitude p) (longitude p) (flags p).

Definition set_flags (p : DronePlot) (f : N) : DronePlot :=
  mkPlot (drone_id p) (node_id p) (timestamp p) (latitude p) (longitude p) f.

(** Modelled from the spec: [DronePlot::isFlagSet] and
    [DronePlot::clrFlags] of the missing [DronePlotDB.h]; the record carries
    a mutable flag that is tested and cleared, here one bit of a mask. *)
Definition isFlagSet (p : DronePlot) (f : N) : bool :=
  negb (N.land (flags p) f =? 0)%N.

Definition clrFlags (p : DronePlot) (f : N) : DronePlot :=
  set_flags p (N.ldiff (flags p) f).

Definition Store : Type := list DronePlot.

(** Modelled from the spec: [DronePlotDB::sortByTime] of the missing
    [DronePlotDB.h], an in-place stable sort ascending by timestamp. *)
Fixpoint insert_by_time (p : DronePlot) (db : Store) : Store :=
  match db with
  | [] => [p]
  | q :: rest =>
      if (timestamp p <=? timestamp q)%Z then p :: q :: rest
      else q :: insert_by_time p rest
  end.

Fixpoint sortByTime (db : Store) : Store :=
  match db with
  | [] => []
  | p :: rest => insert_by_time p (sortByTime rest)
  end.

(** Modelled from the spec: [DronePlotDB::addPlot] of the missing
    [DronePlotDB.h]; appends a record, its flag set on creation. *)
Definition addPlot (new_flag : N) (d n : N) (t : Z) (la lo : coord)
    (db : Store) : Store :=
  db ++ [mkPlot d n t la lo new_flag].

(** ** Reconciliation *)

(** [get_node_count]: one pass over the database, pushing every node id
    that [std::count] does not find in the tracker yet. *)
Fixpoint get_node_count (tracker : list N) (db : Store) : list N :=
  match db with
  | [] => tracker
  | p :: rest =>
      if existsb (N.eqb (node_id p)) tracker
      then get_node_count tracker rest
      else get_node_count (tracker ++ [node_id p]) rest
  end.

(** [std::sort(tracker.begin(), tracker.end())]: ascending order. *)
Fixpoint insert_node (n : N) (l : list N) : list N :=
  match l with
  | [] => [n]
  | m :: rest => if (n <=? m)%N then n :: m :: rest else m :: insert_node n rest
  end.

Fixpoint sort_nodes (l : list N) : list N :=
  match l with
  | [] => []
  | n :: rest => insert_node n (sort_nodes rest)
  end.

(** The test of the inner loop of [offset_aux]: [q] is the record under
    [dbitr2], [p] the one under [dbitr]. *)
Definition is_duplicate (largest_id : N) (p q : DronePlot) : bool :=
  coord_eqb (latitude q) (latitude p)
  && coord_eqb (longitude q) (longitude p)
  && (node_id q =? largest_id)%N.

(** The inner loop of [offset_aux]: walks [dbitr2] over the records after
    [dbitr]; at the first duplicate, returns it and the list with that
    record erased. *)
Fixpoint find_duplicate (largest_id : N) (p : DronePlot) (after : Store)
    : option (DronePlot * Store) :=
  match after with
  | [] => None
  | q :: rest =>
      if is_duplicate largest_id p q then Some (q, rest)
      else match find_duplicate largest_id p rest with
           | Some (d, rest') => Some (d, q :: rest')
           | None => None
           end
  end.

(** [offset_aux]: the offset returned and the database it leaves. *)
Fixpoint offset_aux (input_id largest_id : N) (db : Store) : Z * Store :=
  match db with
  | [] => (0%Z, [])
  | p :: rest =>
      let continue :=
        let (offset, rest') := offset_aux input_id largest_id rest in
        (offset, p :: rest') in
      if (node_id p =? input_id)%N then
        match find_duplicate largest_id p rest with
        | Some (d, rest') =>
            (to_int (timestamp d - timestamp p), p :: rest')
        | None => continue
        end
      else continue
  end.

(** The range-for of [generate_offsets], once [largest_id] is known. *)
Fixpoint generate_offsets_loop (largest_id : N) (nodes : list N)
    (offsets : list Z) (db : Store) : list Z * Store :=
  match nodes with
  | [] => (offsets, db)
  | n :: rest =>
      if (n =? largest_id)%N then (offsets, db)
      else
        let (offset, db') := offset_aux n largest_id db in
        generate_offsets_loop largest_id rest (offsets ++ [offset]) db'
  end.

Definition generate_offsets (offsets : list Z) (tracker : list N)
    (db : Store) : result Store (list Z) :=
  match vec_at tracker (size_minus_one (N.of_nat (length tracker))) with
  | None => OutOfBounds
  | Some largest_id =>
      let (offsets', db') :=
        generate_offsets_loop largest_id tracker offsets db in
      Ok offsets' db'
  end.

(** The inner range-for of [correct_timestamps]: [i] counts the tracker
    entries passed before the [break]. *)
Fixpoint tracker_index (n : N) (tracker : list N) : nat :=
  match tracker with
  | [] => 0
  | m :: rest => if (n =? m)%N then 0 else S (tracker_index n rest)
  end.

Fixpoint correct_timestamps_loop (largest_id : N) (offsets : list Z)
    (tracker : list N) (db : Store) : result Store unit :=
  match db with
  | [] => Ok tt []
  | p :: rest =>
      if negb (node_id p =? largest_id)%N then
        let i := tracker_index (node_id p) tracker in
        match vec_at offsets (N.of_nat i) with
        | None => OutOfBounds
        | Some o =>
            with_state
              (cons (set_timestamp p (to_time_t (timestamp p + o)%Z)))
              (correct_timestamps_loop largest_id offsets tracker rest)
        end
      else
        with_state (cons p)
          (correct_timestamps_loop largest_id offsets tracker rest)
  end.

Definition correct_timestamps (offsets : list Z) (tracker : list N)
    (db : Store) : result Store unit :=
  match vec_at tracker (size_minus_one (N.of_nat (length tracker))) with
  | None => OutOfBounds
  | Some largest_id => correct_timestamps_loop largest_id offsets tracker db
  end.

Definition eventual_consistency (db : Store) : result Store unit :=
  let sorted := sortByTime db in
  let tracker := sort_nodes (get_node_count [] sorted) in
  and_then (generate_offsets [] tracker sorted)
    (fun offsets db' => correct_timestamps offsets tracker db').

End Plots.

Arguments mkPlot {coord}.
Arguments is_duplicate {coord} coord_eqb largest_id p q.
Arguments find_duplicate {coord} coord_eqb largest_id p after.
Arguments offset_aux {coord} coord_eqb input_id largest_id db.
Arguments generate_offsets_loop {coord} coord_eqb largest_id nodes offsets db.
Arguments generate_offsets {coord} coord_eqb offsets tracker db.
Arguments eventual_consistency {coord} coord_eqb db.

(** ** Batches on the wire *)

Definition byte_of_N (n : N) : byte :=
  match Byte.of_N (n mod 256) with
  | Some b => b
  | None => x00
  end.

(** The four bytes of an [unsigned int] as they lie in memory, least
    significant first. *)
Definition count_bytes (count : N) : list byte :=
  [ byte_of_N count; byte_of_N (count / 256);
    byte_of_N (count / 65536); byte_of_N (count / 16777216) ].

(** Modelled from the spec: the count of the wire format, an unsigned
    number laid out in native byte order, least significant byte first; the
    number that the bytes [bytes] hold. *)
Fixpoint le_value (bytes : list byte) : N :=
  match bytes with
  | [] => 0%N
  | b :: rest => (Byte.to_N b + 256 * le_value rest)%N
  end.

(** [*(unsigned int * ) data.data()]: the count read back from the first
    four bytes. *)
Definition read_count (data : list byte) : N :=
  match data with
  | b0 :: b1 :: b2 :: b3 :: _ =>
      (Byte.to_N b0 + 256 * Byte.to_N b1 + 65536 * Byte.to_N b2
       + 16777216 * Byte.to_N b3)%N
  | _ => 0%N
  end.

(** [assign(first, first + len)] on a vector: defined only when the range
    lies inside the vector. *)
Definition vec_range {A : Type} (v : list A) (first len : N)
    : option (list A) :=
  if (first + len <=? N.of_nat (length v))%N
  then Some (firstn (N.to_nat len) (skipn (N.to_nat first) v))
  else None.

Definition secs_between_repl : Z := 20.

Section Replication.

Variable coord : Type.

(** What [ReplServer.cpp] uses of the missing [DronePlotDB.h]. *)
Variable getDataSize : N.                          (* DronePlot::getDataSize() *)
Variable serialize : DronePlot coord -> list byte. (* the bytes serialize appends *)
Variable deserialize : list byte -> DronePlot coord.
Variable DBFLAG_NEW : N.

(** The server: the database, the payloads handed to [_queue.sendToAll]
    (oldest first) and [_last_repl]. *)
Record Server : Type := mkServer {
  plotdb    : Store coord;
  sent      : list (list byte);
  last_repl : Z
}.

(** The loop of [queueNewPlots]; [marshall_data] and [count] are its
    locals, the state is the part of the database under and after [dpit]. *)
Fixpoint queueNewPlots_loop (marshall_data : list byte) (count : N)
    (db : Store coord) : result (Store coord) (list byte * N) :=
  match db with
  | [] => Ok (marshall_data, count) []
  | p :: rest =>
      let '(p', marshall_data', count') :=
        if isFlagSet p DBFLAG_NEW
        then (clrFlags p DBFLAG_NEW, marshall_data ++ serialize p,
              to_uint (count + 1))
        else (p, marshall_data, count) in
      if negb (N.of_nat (length marshall_data') mod getDataSize =? 0)%N
      then Throw MarshallingIssue (p' :: rest)
      else with_state (cons p')
             (queueNewPlots_loop marshall_data' count' rest)
  end.

Definition queueNewPlots (sv : Server) : result Server N :=
  match queueNewPlots_loop [] 0%N (plotdb sv) with
  | OutOfBounds => OutOfBounds
  | Throw e db' => Throw e (mkServer db' (sent sv) (last_repl sv))
  | Ok (marshall_data, count) db' =>
      if (count =? 0)%N then Ok 0%N (mkServer db' (sent sv) (last_repl sv))
      else
        let marshall_data' := count_bytes count ++ marshall_data in
        let sent' :=
          if (0 <? length marshall_data')%nat
          then sent sv ++ [marshall_data'] else sent sv in
        Ok count (mkServer db' sent' (last_repl sv))
  end.

Definition addSingleDronePlot (data : list byte) (db : Store coord)
    : Store coord :=
  let tmp_plot := deserialize data in
  addPlot DBFLAG_NEW (drone_id tmp_plot) (node_id tmp_plot)
    (timestamp tmp_plot) (latitude tmp_plot) (longitude tmp_plot) db.

(** The for-loop of [addReplDronePlots]: [todo] iterations remain and
    [dptr] is the offset of the iterator into [data]. *)
Fixpoint addReplDronePlots_loop (todo : nat) (dptr : N) (data : list byte)
    (db : Store coord) : result (Store coord) unit :=
  match todo with
  | O => Ok tt db
  | S todo' =>
      match vec_range data dptr getDataSize with
      | None => OutOfBounds
      | Some plot =>
          addReplDronePlots_loop todo' (dptr + getDataSize) data
            (addSingleDronePlot plot db)
      end
  end.

Definition addReplDronePlots (data : list byte) (db : Store coord)
    : result (Store coord) unit :=
  let size := N.of_nat (length data) in
  if (size <? 4)%N then Throw TruncatedBatch db
  else if negb ((size - 4) mod getDataSize =? 0)%N
  then Throw MisalignedBatch db
  else addReplDronePlots_loop (N.to_nat (read_count data)) 4 data db.

(** One pass of the [while (!_shutdown)] loop of [replicate].  The two
    readings of [getAdjustedTime()] and the payloads that [_queue.pop]
    yields in this pass are inputs. *)
Definition replicate_due (now : Z) (sv : Server) : bool :=
  (now - last_repl sv >? secs_between_repl)%Z.

Definition replicate_broadcast (now now' : Z) (sv : Server)
    : result Server unit :=
  if replicate_due now sv then
    and_then (queueNewPlots sv)
      (fun _ sv' => Ok tt (mkServer (plotdb sv') (sent sv') now'))
  else Ok tt sv.

Fixpoint replicate_drain (inbound : list (list byte)) (sv : Server)
    : result Server unit :=
  match inbound with
  | [] => Ok tt sv
  | data :: more =>
      and_then
        (with_state (fun db => mkServer db (sent sv) (last_repl sv))
           (addReplDronePlots data (plotdb sv)))
        (fun _ sv' => replicate_drain more sv')
  end.

Definition replicate_iteration (now now' : Z) (inbound : list (list byte))
    (sv : Server) : result Server unit :=
  and_then (replicate_broadcast now now' sv)
    (fun _ sv' => replicate_drain inbound sv').

(** What one scan of [queueNewPlots] does to a record, the records it
    serializes and the payload it hands to [sendToAll]. *)
Definition after_scan (p : DronePlot coord) : DronePlot coord :=
  if isFlagSet p DBFLAG_NEW then clrFlags p DBFLAG_NEW else p.

Definition new_plots (db : Store coord) : Store coord :=
  filter (fun p => isFlagSet p DBFLAG_NEW) db.

Definition batch_of (plots : Store coord) : list byte :=
  count_bytes (N.of_nat (length plots)) ++ concat (map serialize plots).

End Replication.

Arguments mkServer {coord} plotdb sent last_repl.

(** ** Vocabulary for the duplicate search *)

Section Search.

Variable coord : Type.
Variable coord_eqb : coord -> coord -> bool.

(** No record of [db] stops the inner loop started from [p]. *)
Definition no_duplicate_in (largest_id : N) (p : DronePlot coord)
    (db : Store coord) : Prop :=
  Forall (fun q => is_duplicate coord_eqb largest_id p q = false) db.

(** No record of node [input_id] has a duplicate after it. *)
Fixpoint no_match (input_id largest_id : N) (db : Store coord) : Prop :=
  match db with
  | [] => True
  | p :: rest =>
      (node_id p = input_id -> no_duplicate_in largest_id p rest)
      /\ no_match input_id largest_id rest
  end.

(** [a] is the first record of node [input_id] with a duplicate after it,
    and [r] is the first such duplicate. *)
Definition first_match (input_id largest_id : N)
    (pre : Store coord) (a : DronePlot coord) (mid : Store coord)
    (r : DronePlot coord) (post : Store coord) : Prop :=
  no_match input_id largest_id pre
  /\ Forall (fun p => node_id p = input_id ->
       no_duplicate_in largest_id p (a :: mid ++ r :: post)) pre
  /\ node_id a = input_id
  /\ no_duplicate_in largest_id a mid
  /\ is_duplicate coord_eqb largest_id a r = true.

(** The reference node: the largest node id of the node set. *)
Definition max_node (nodes : list N) : N := fold_right N.max 0%N nodes.

(** The position of [n] in a node set, counted from 0. *)
Fixpoint position_in (n : N) (nodes : list N) : option nat :=
  match nodes with
  | [] => None
  | m :: rest =>
      if (n =? m)%N then Some 0 else option_map S (position_in n rest)
  end.

(** What [correct_timestamps] does to one record when every index it
    computes lies inside [offsets]. *)
Definition corrected (largest_id : N) (offsets : list Z) (tracker : list N)
    (p : DronePlot coord) : DronePlot coord :=
  if (node_id p =? largest_id)%N then p
  else set_timestamp p
         (to_time_t
            (timestamp p
             + nth (tracker_index (node_id p) tracker) offsets 0)%Z).

(** The number of records of node [n]. *)
Definition count_node (n : N) (db : Store coord) : nat :=
  length (filter (fun p => (node_id p =? n)%N) db).

(** Two records of node [n] match, in latitude and longitude, two distinct
    records of node [ref]; positions in [db] tell records apart. *)
Definition two_spatial_matches (n ref : N) (db : Store coord) : Prop :=
  exists i1 i2 j1 j2 a1 a2 r1 r2,
    i1 <> i2 /\ j1 <> j2
    /\ nth_error db i1 = Some a1 /\ nth_error db i2 = Some a2
    /\ nth_error db j1 = Some r1 /\ nth_error db j2 = Some r2
    /\ node_id a1 = n /\ node_id a2 = n
    /\ is_duplicate coord_eqb ref a1 r1 = true
    /\ is_duplicate coord_eqb ref a2 r2 = true.

(** Some record of node [n] has a matching record of node [ref] after it
    in [db]. *)
Definition match_in_scan_order (n ref : N) (db : Store coord) : Prop :=
  exists i j a r,
    i < j /\ nth_error db i = Some a /\ nth_error db j = Some r
    /\ node_id a = n /\ is_duplicate coord_eqb ref a r = true.

End Search.

Arguments no_duplicate_in {coord} coord_eqb largest_id p db.
Arguments no_match {coord} coord_eqb input_id largest_id db.
Arguments first_match {coord} coord_eqb input_id largest_id pre a mid r post.
Arguments two_spatial_matches {coord} coord_eqb n ref db.
Arguments match_in_scan_order {coord} coord_eqb n ref db.


(** ** Records taken in *)

Section Ingested.

Variable coord : Type.
Variable deserialize : list byte -> DronePlot coord.
Variable DBFLAG_NEW : N.

(** The record that [addSingleDronePlot] appends for the bytes [data]. *)
Definition ingested_plot (data : list byte) : DronePlot coord :=
  let tmp_plot := deserialize data in
  mkPlot (drone_id tmp_plot) (node_id tmp_plot) (timestamp tmp_plot)
    (latitude tmp_plot) (longitude tmp_plot) DBFLAG_NEW.

End Ingested.

Arguments ingested_plot {coord} deserialize DBFLAG_NEW data.

(** ** Sample databases, coordinates taken as integers *)

Definition plot12_node1 : DronePlot Z := mkPlot 7%N 1%N 100%Z 10%Z 20%Z 0%N.
Definition plot12_node2 : DronePlot Z := mkPlot 7%N 2%N 150%Z 10%Z 20%Z 0%N.
Definition store12 : Store Z := [plot12_node1; plot12_node2].


(** A two-byte record format for sample runs. *)
Definition sample_serialize (p : DronePlot Z) : list byte :=
  [byte_of_N (node_id p); byte_of_N (drone_id p)].

Definition sample_deserialize (data : list byte) : DronePlot Z :=
  match data with
  | n :: d :: _ => mkPlot (Byte.to_N d) (Byte.to_N n) 0%Z 0%Z 0%Z 0%N
  | _ => mkPlot 0%N 0%N 0%Z 0%Z 0%Z 0%N
  end.

Definition sample_server : Server Z :=
  mkServer [ mkPlot 7%N 1%N 100%Z 1%Z 1%Z 1%N;
             mkPlot 8%N 1%N 110%Z 2%Z 2%Z 0%N;
             mkPlot 9%N 1%N 120%Z 3%Z 3%Z 3%N ] [] 0%Z.

(** The reference node's clock runs behind: its two records sort first. *)
Definition store_behind : Store Z :=
  [ mkPlot 7%N 2%N 50%Z 1%Z 1%Z 0%N;
    mkPlot 7%N 2%N 60%Z 2%Z 2%Z 0%N;
    mkPlot 7%N 1%N 100%Z 1%Z 1%Z 0%N;
    mkPlot 7%N 1%N 110%Z 2%Z 2%Z 0%N;
    mkPlot 7%N 1%N 120%Z 3%Z 3%Z 0%N ].

(** The reference node's clock runs ahead: its two records follow the
    records they match. *)
Definition store_ahead : Store Z :=
  [ mkPlot 7%N 1%N 100%Z 1%Z 1%Z 0%N;
    mkPlot 7%N 1%N 110%Z 2%Z 2%Z 0%N;
    mkPlot 7%N 1%N 120%Z 3%Z 3%Z 0%N;
    mkPlot 7%N 2%N 150%Z 2%Z 2%Z 0%N;
    mkPlot 7%N 2%N 160%Z 1%Z 1%Z 0%N ].

(** The reference node's record comes first. *)
Definition store21 : Store Z := [plot12_node2; plot12_node1].

(** Payloads for the two-byte format: a count of 2 in front of one record,
    and a count of 1 in front of two records. *)
Definition payload_short : list byte := [x02; x00; x00; x00; x01; x07].
Definition payload_long : list byte :=
  [x01; x00; x00; x00; x01; x07; x01; x08].

(** A record whose two flag bits are set, and a format that gives it three
    bytes where records take two. *)
Definition plot_pending : DronePlot Z :=
  mkPlot 9%N 1%N 120%Z 3%Z 3%Z 3%N.

Definition odd_serialize (p : DronePlot Z) : list byte :=
  [byte_of_N (node_id p); byte_of_N (drone_id p); x00].

(** [sample_server] after one scan. *)
Definition sample_server_scanned : Server Z :=
  mkServer [ mkPlot 7%N 1%N 100%Z 1%Z 1%Z 0%N;
             mkPlot 8%N 1%N 110%Z 2%Z 2%Z 0%N;
             mkPlot 9%N 1%N 120%Z 3%Z 3%Z 2%N ]
           [[x02; x00; x00; x00; x01; x07; x01; x09]] 0%Z.

(** Three nodes: nodes 1 and 2 each have a record that the reference
    node 3 saw too, 50 and 45 seconds later by its clock. *)
Definition store_three : Store Z :=
  [ mkPlot 7%N 1%N 100%Z 1%Z 1%Z 0%N;
    mkPlot 7%N 3%N 150%Z 1%Z 1%Z 0%N;
    mkPlot 8%N 2%N 205%Z 2%Z 2%Z 0%N;
    mkPlot 8%N 3%N 250%Z 2%Z 2%Z 0%N;
    mkPlot 9%N 3%N 300%Z 9%Z 9%Z 0%N ].

Definition store_three_left : Store Z :=
  [ mkPlot 7%N 1%N 100%Z 1%Z 1%Z 0%N;
    mkPlot 8%N 2%N 205%Z 2%Z 2%Z 0%N;
    mkPlot 9%N 3%N 300%Z 9%Z 9%Z 0%N ].

Definition store_three_corrected : Store Z :=
  [ mkPlot 7%N 1%N 150%Z 1%Z 1%Z 0%N;
    mkPlot 8%N 2%N 250%Z 2%Z 2%Z 0%N;
    mkPlot 9%N 3%N 300%Z 9%Z 9%Z 0%N ].

(** Clock skew beyond the range of [int]. *)
Definition plot_far_node1 : DronePlot Z :=
  mkPlot 7%N 1%N (-1)%Z 10%Z 20%Z 0%N.
Definition plot_far_node2 : DronePlot Z :=
  mkPlot 7%N 2%N 2147483647%Z 10%Z 20%Z 0%N.
Definition store_far : Store Z := [plot_far_node1; plot_far_node2].

Unset Implicit Arguments.

(** ** Facts about the machine integers *)

Lemma to_int_small (z : Z) : int_range z -> to_int z = z.
Proof.
  unfold int_range, to_int. intros H.
  rewrite Z.mod_small by lia. lia.
Qed.

Lemma to_time_t_small (z : Z) : time_t_range z -> to_time_t z = z.
Proof.
  unfold time_t_range, to_time_t. intros H.
  rewrite Z.mod_small by lia. lia.
Qed.

Lemma to_time_t_range (z : Z) : time_t_range (to_time_t z).
Proof.
  unfold time_t_range, to_time_t.
  pose proof (Z.mod_pos_bound (z + 2 ^ 63) (2 ^ 64) ltac:(lia)). lia.
Qed.

(** The difference of two timestamps is taken in [time_t] and stored in an
    [int]; the [int] is the same as for the difference itself. *)
Lemma to_int_of_time_t (z : Z) : to_int (to_time_t z) = to_int z.
Proof.
  unfold to_int, to_time_t. f_equal.
  pose proof (Z.div_mod (z + 2 ^ 63) (2 ^ 64) ltac:(lia)) as H.
  replace ((z + 2 ^ 63) mod 2 ^ 64 - 2 ^ 63 + 2 ^ 31)%Z
    with (z + 2 ^ 31 + - (2 ^ 32 * ((z + 2 ^ 63) / 2 ^ 64)) * 2 ^ 32)%Z
    by lia.
  apply Z.mod_add. lia.
Qed.

Lemma to_int_range (z : Z) : int_range (to_int z).
Proof.
  unfold int_range, to_int.
  pose proof (Z.mod_pos_bound (z + 2 ^ 31) (2 ^ 32) ltac:(lia)). lia.
Qed.

Lemma vec_at_last {A : Type} (front : list A) (x : A) :
  vec_at (front ++ [x]) (size_minus_one (N.of_nat (length (front ++ [x]))))
  = Some x.
Proof.
  unfold vec_at, size_minus_one. rewrite length_app. simpl.
  destruct (N.eqb_spec (N.of_nat (length front + 1)) 0) as [E|_]; [lia|].
  destruct (N.ltb_spec (N.of_nat (length front + 1) - 1)
              (N.of_nat (length front + 1))) as [_|E]; [|lia].
  replace (N.to_nat (N.of_nat (length front + 1) - 1)) with (length front)
    by lia.
  rewrite nth_error_app2 by lia. now rewrite Nat.sub_diag.
Qed.

Lemma vec_at_empty {A : Type} (i : N) : vec_at (@nil A) i = None.
Proof. unfold vec_at. simpl. now destruct (N.ltb_spec i 0); [lia|]. Qed.

Lemma vec_at_nat {A : Type} (v : list A) (i : nat) :
  vec_at v (N.of_nat i) = nth_error v i.
Proof.
  unfold vec_at. rewrite Nat2N.id.
  destruct (N.ltb_spec (N.of_nat i) (N.of_nat (length v))) as [H|H]; auto.
  symmetry. apply nth_error_None. lia.
Qed.

(** ** Reconciliation: the duplicate search *)

Section Reconciliation_facts.

Context {coord : Type} (coord_eqb : coord -> coord -> bool).

Implicit Types (p q a r : DronePlot coord) (db : Store coord).

Lemma find_duplicate_none (largest_id : N) p db :
  no_duplicate_in coord_eqb largest_id p db ->
  find_duplicate coord_eqb largest_id p db = None.
Proof.
  induction 1 as [|q rest Hq _ IH]; simpl; [reflexivity|].
  now rewrite Hq, IH.
Qed.

Lemma find_duplicate_first (largest_id : N) p mid r post :
  no_duplicate_in coord_eqb largest_id p mid ->
  is_duplicate coord_eqb largest_id p r = true ->
  find_duplicate coord_eqb largest_id p (mid ++ r :: post)
  = Some (r, mid ++ post).
Proof.
  intros Hmid Hr.
  induction Hmid as [|q rest Hq _ IH]; simpl.
  - now rewrite Hr.
  - now rewrite Hq, IH.
Qed.

Lemma find_duplicate_inv (largest_id : N) p db r db' :
  find_duplicate coord_eqb largest_id p db = Some (r, db') ->
  exists mid post,
    db = mid ++ r :: post /\ db' = mid ++ post
    /\ no_duplicate_in coord_eqb largest_id p mid
    /\ is_duplicate coord_eqb largest_id p r = true.
Proof.
  revert db'. induction db as [|q rest IH]; simpl; intros db' H.
  - discriminate.
  - destruct (is_duplicate coord_eqb largest_id p q) eqn:Hq.
    + injection H as <- <-. exists [], rest. repeat split; auto.
      constructor.
    + destruct (find_duplicate coord_eqb largest_id p rest)
        as [[d rest']|] eqn:E; [|discriminate].
      injection H as <- <-.
      destruct (IH rest' eq_refl) as (mid & post & -> & -> & Hmid & Hd).
      exists (q :: mid), post. repeat split; auto.
      constructor; assumption.
Qed.

Lemma find_duplicate_none_inv (largest_id : N) p db :
  find_duplicate coord_eqb largest_id p db = None ->
  no_duplicate_in coord_eqb largest_id p db.
Proof.
  induction db as [|q rest IH]; simpl; intros H; [constructor|].
  destruct (is_duplicate coord_eqb largest_id p q) eqn:Hq; [discriminate|].
  destruct (find_duplicate coord_eqb largest_id p rest) as [[d rest']|];
    [discriminate|].
  constructor; [exact Hq|apply IH; reflexivity].
Qed.

Lemma offset_aux_no_match (input_id largest_id : N) db :
  no_match coord_eqb input_id largest_id db ->
  offset_aux coord_eqb input_id largest_id db = (0%Z, db).
Proof.
  induction db as [|p rest IH]; simpl; [reflexivity|].
  intros [Hp Hrest]. rewrite (IH Hrest).
  destruct (N.eqb_spec (node_id p) input_id) as [E|E]; [|reflexivity].
  now rewrite (find_duplicate_none _ _ _ (Hp E)).
Qed.

Lemma offset_aux_first_match (input_id largest_id : N) pre a mid r post :
  first_match coord_eqb input_id largest_id pre a mid r post ->
  offset_aux coord_eqb input_id largest_id (pre ++ a :: mid ++ r :: post)
  = (to_int (timestamp r - timestamp a), pre ++ a :: mid ++ post).
Proof.
  intros (Hpre & Hpre' & Ha & Hmid & Hr).
  induction pre as [|p pre IH]; simpl.
  - apply N.eqb_eq in Ha. rewrite Ha.
    now rewrite (find_duplicate_first _ _ _ _ post Hmid Hr).
  - destruct Hpre as [Hp Hpre]. inversion_clear Hpre' as [|? ? Hp' Hpre''].
    rewrite (IH Hpre Hpre'').
    destruct (N.eqb_spec (node_id p) input_id) as [E|E]; [|reflexivity].
    rewrite find_duplicate_none; [reflexivity|].
    apply Forall_app. split; [exact (Hp E)|exact (Hp' E)].
Qed.

Lemma no_match_of_positions (input_id largest_id : N) db :
  (forall i j p r, i < j ->
     nth_error db i = Some p -> nth_error db j = Some r ->
     node_id p = input_id -> node_id r = largest_id ->
     coord_eqb (latitude r) (latitude p)
     && coord_eqb (longitude r) (longitude p) = false) ->
  no_match coord_eqb input_id largest_id db.
Proof.
  induction db as [|p rest IH]; intros H; simpl; [exact I|].
  split.
  - intros Hp. apply Forall_forall. intros q Hq.
    destruct (In_nth_error _ _ Hq) as [j Hj].
    unfold is_duplicate.
    destruct (N.eqb_spec (node_id q) largest_id) as [E|E];
      [|apply andb_false_r].
    rewrite andb_true_r.
    apply (H 0 (S j) p q); auto. lia.
  - apply IH. intros i j p' r Hij Hi Hj.
    apply (H (S i) (S j) p' r); auto. lia.
Qed.

(** C3: when no record of the reference node with coordinates equal to
    those of a record of the non-reference node [input_id] comes after that
    record, [offset_aux] returns 0 and leaves the database as it was. *)
Theorem offset_aux_without_match_keeps_store (input_id largest_id : N) db :
  input_id <> largest_id ->
  (forall i j p r, i < j ->
     nth_error db i = Some p -> nth_error db j = Some r ->
     node_id p = input_id -> node_id r = largest_id ->
     coord_eqb (latitude r) (latitude p)
     && coord_eqb (longitude r) (longitude p) = false) ->
  offset_aux coord_eqb input_id largest_id db = (0%Z, db).
Proof.
  intros _ H. apply offset_aux_no_match, no_match_of_positions, H.
Qed.

Lemma first_match_of_single_pair (input_id largest_id : N) pre a mid r post :
  node_id a = input_id -> node_id r = largest_id ->
  Forall (fun p => node_id p <> input_id /\ node_id p <> largest_id)
    (pre ++ mid ++ post) ->
  coord_eqb (latitude r) (latitude a) = true ->
  coord_eqb (longitude r) (longitude a) = true ->
  first_match coord_eqb input_id largest_id pre a mid r post.
Proof.
  intros Ha Hr Hothers Hlat Hlon.
  apply Forall_app in Hothers as [Hpre Hothers].
  apply Forall_app in Hothers as [Hmid Hpost].
  repeat split.
  - clear -Hpre. induction Hpre as [|p pre [Hp _] _ IH]; simpl; auto.
    split; [intros E; contradiction|exact IH].
  - eapply Forall_impl; [|exact Hpre]. intros p [Hp _] E. contradiction.
  - exact Ha.
  - eapply Forall_impl; [|exact Hmid]. intros q [_ Hq].
    unfold is_duplicate. apply N.eqb_neq in Hq. rewrite Hq.
    apply andb_false_r.
  - unfold is_duplicate. rewrite Hlat, Hlon, Hr. simpl. apply N.eqb_refl.
Qed.

(** C2, as the code has it: in a database whose only record of the
    reference node [r] comes after the only record [a] of another node and
    compares equal to it in latitude and longitude, [offset_aux] returns the
    difference of the two timestamps as stored in an [int], which is the
    difference itself when that lies in the range of [int]; the reference
    record is erased and every other record stays. *)
Theorem offset_aux_single_pair (input_id largest_id : N) pre a mid r post :
  input_id <> largest_id ->
  node_id a = input_id -> node_id r = largest_id ->
  Forall (fun p => node_id p <> input_id /\ node_id p <> largest_id)
    (pre ++ mid ++ post) ->
  coord_eqb (latitude r) (latitude a) = true ->
  coord_eqb (longitude r) (longitude a) = true ->
  offset_aux coord_eqb input_id largest_id (pre ++ a :: mid ++ r :: post)
  = (to_int (timestamp r - timestamp a), pre ++ a :: mid ++ post)
  /\ (int_range (timestamp r - timestamp a) ->
      to_int (timestamp r - timestamp a) = (timestamp r - timestamp a)%Z).
Proof.
  intros _ Ha Hr Hothers Hlat Hlon. split.
  - apply offset_aux_first_match.
    now apply first_match_of_single_pair.
  - apply to_int_small.
Qed.

(** C1: with node 1 at time 100 and node 2 at time 150, both at the same
    latitude and longitude, reconciliation leaves one record, that of node 1,
    its timestamp rewritten to 150. *)
Theorem eventual_consistency_two_nodes (la lo : coord) (d1 d2 f1 f2 : N) :
  coord_eqb la la = true -> coord_eqb lo lo = true ->
  eventual_consistency coord_eqb
    [mkPlot d1 1%N 100%Z la lo f1; mkPlot d2 2%N 150%Z la lo f2]
  = Ok tt [mkPlot d1 1%N 150%Z la lo f1].
Proof.
  intros Hla Hlo.
  unfold eventual_consistency, generate_offsets, correct_timestamps, vec_at.
  simpl. unfold is_duplicate. simpl. rewrite Hla, Hlo. simpl.
  reflexivity.
Qed.

End Reconciliation_facts.

(** ** Reconciliation: sorting and the node tracker *)

Section Tracker_facts.

Context {coord : Type}.

Implicit Types (p q : DronePlot coord) (db : Store coord).

Lemma insert_by_time_perm p db : Permutation (insert_by_time p db) (p :: db).
Proof.
  induction db as [|q rest IH]; simpl; [reflexivity|].
  destruct (timestamp p <=? timestamp q)%Z; [reflexivity|].
  rewrite IH. apply perm_swap.
Qed.

Lemma sortByTime_perm db : Permutation (sortByTime db) db.
Proof.
  induction db as [|p rest IH]; simpl; [reflexivity|].
  rewrite insert_by_time_perm. now apply perm_skip.
Qed.

Lemma sortByTime_nonempty db : db <> [] -> sortByTime db <> [].
Proof.
  intros H E. apply H. apply Permutation_nil.
  rewrite <- E. apply sortByTime_perm.
Qed.

Lemma get_node_count_in (tracker : list N) db (n : N) :
  In n (get_node_count tracker db)
  <-> In n tracker \/ In n (map (@node_id coord) db).
Proof.
  revert tracker. induction db as [|p rest IH]; intros tracker; simpl.
  - tauto.
  - destruct (existsb (N.eqb (node_id p)) tracker) eqn:E; rewrite IH.
    + apply existsb_exists in E as (m & Hm & Em). apply N.eqb_eq in Em.
      subst m. intuition (subst; auto).
    + rewrite in_app_iff. simpl. tauto.
Qed.

Lemma get_node_count_nodup (tracker : list N) db :
  NoDup tracker -> NoDup (get_node_count tracker db).
Proof.
  revert tracker. induction db as [|p rest IH]; intros tracker H; simpl.
  - exact H.
  - destruct (existsb (N.eqb (node_id p)) tracker) eqn:E; apply IH; auto.
    apply NoDup_app; auto.
    + repeat constructor. simpl. tauto.
    + intros m Hm [<-|[]].
      assert (existsb (N.eqb (node_id p)) tracker = true); [|congruence].
      apply existsb_exists. exists (node_id p). split; auto.
      apply N.eqb_refl.
Qed.

Lemma insert_node_in (n m : N) (l : list N) :
  In m (insert_node n l) <-> m = n \/ In m l.
Proof.
  induction l as [|k rest IH]; simpl; [intuition|].
  destruct (n <=? k)%N; simpl; [intuition|]. rewrite IH. intuition.
Qed.

Lemma sort_nodes_in (m : N) (l : list N) : In m (sort_nodes l) <-> In m l.
Proof.
  induction l as [|n rest IH]; simpl; [tauto|].
  rewrite insert_node_in, IH. intuition.
Qed.

Lemma insert_node_sorted (n : N) (l : list N) :
  StronglySorted N.lt l -> ~ In n l -> StronglySorted N.lt (insert_node n l).
Proof.
  induction 1 as [|k rest Hrest IH Hk]; intros Hn; simpl.
  - repeat constructor.
  - destruct (N.leb_spec n k) as [Hle|Hlt].
    + assert (n < k)%N by (simpl in Hn; lia).
      constructor; [constructor; assumption|].
      constructor; [assumption|].
      eapply Forall_impl; [|exact Hk]. intros; lia.
    + constructor.
      * apply IH. simpl in Hn. tauto.
      * apply Forall_forall. intros m Hm.
        apply insert_node_in in Hm as [->|Hm]; [assumption|].
        rewrite Forall_forall in Hk. auto.
Qed.

Lemma sort_nodes_sorted (l : list N) :
  NoDup l -> StronglySorted N.lt (sort_nodes l).
Proof.
  induction 1 as [|n rest Hn _ IH]; simpl; [constructor|].
  apply insert_node_sorted; [exact IH|]. now rewrite sort_nodes_in.
Qed.

Lemma sorted_last_is_largest (front : list N) (x : N) :
  StronglySorted N.lt (front ++ [x]) -> Forall (fun m => (m < x)%N) front.
Proof.
  induction front as [|k rest IH]; simpl; intros H; [constructor|].
  inversion_clear H as [|? ? Hrest Hk].
  constructor; [|auto].
  rewrite Forall_forall in Hk. apply Hk. apply in_app_iff. simpl. auto.
Qed.

Lemma max_node_last (front : list N) (x : N) :
  Forall (fun m => (m < x)%N) front -> max_node (front ++ [x]) = x.
Proof.
  unfold max_node.
  induction 1 as [|k rest Hk _ IH]; simpl.
  - apply N.max_0_r.
  - rewrite IH. lia.
Qed.

(** The tracker that [eventual_consistency] builds from a non-empty
    database: the node ids present, ascending, the largest one last. *)
Lemma tracker_shape db :
  db <> [] ->
  exists front largest,
    sort_nodes (get_node_count [] db) = front ++ [largest]
    /\ StronglySorted N.lt (front ++ [largest])
    /\ Forall (fun m => (m < largest)%N) front
    /\ (forall n, In n (front ++ [largest]) <-> In n (map (@node_id coord) db)).
Proof.
  intros Hdb.
  assert (Hin : forall n, In n (sort_nodes (get_node_count [] db))
                          <-> In n (map (@node_id coord) db)).
  { intros n. rewrite sort_nodes_in, get_node_count_in. simpl. tauto. }
  assert (Hs : StronglySorted N.lt (sort_nodes (get_node_count [] db))).
  { apply sort_nodes_sorted, get_node_count_nodup. constructor. }
  destruct (sort_nodes (get_node_count [] db)) as [|n l] eqn:E
    using rev_ind.
  - destruct db as [|p rest]; [congruence|].
    destruct (proj2 (Hin (node_id p))). simpl. auto.
  - exists l, n. split; [reflexivity|]. split; [exact Hs|].
    split; [|exact Hin]. now apply sorted_last_is_largest.
Qed.

End Tracker_facts.

(** ** Reconciliation: offsets and timestamps *)

Section Offsets_facts.

Context {coord : Type} (coord_eqb : coord -> coord -> bool).

Implicit Types (p q : DronePlot coord) (db : Store coord).

Lemma offset_aux_keeps (P : DronePlot coord -> Prop)
    (input_id largest_id : N) db :
  Forall P db ->
  Forall P (snd (offset_aux coord_eqb input_id largest_id db)).
Proof.
  induction 1 as [|p rest Hp Hrest IH]; simpl; [constructor|].
  destruct (offset_aux coord_eqb input_id largest_id rest) as [o rest1].
  simpl in IH.
  destruct (node_id p =? input_id)%N; [|simpl; auto].
  destruct (find_duplicate coord_eqb largest_id p rest) as [[d rest']|] eqn:E;
    [|simpl; auto].
  apply find_duplicate_inv in E as (mid & post & -> & -> & _).
  simpl. constructor; [exact Hp|].
  apply Forall_app in Hrest as [Hmid Hpost].
  apply Forall_app. split; [exact Hmid|].
  now inversion Hpost.
Qed.

Lemma generate_offsets_loop_spec (largest_id : N) (front tail : list N)
    (offsets : list Z) db :
  Forall (fun m => m <> largest_id) front ->
  exists offsets' db',
    generate_offsets_loop coord_eqb largest_id (front ++ largest_id :: tail)
      offsets db = (offsets ++ offsets', db')
    /\ length offsets' = length front
    /\ (forall P : DronePlot coord -> Prop, Forall P db -> Forall P db').
Proof.
  intros Hfront. revert offsets db.
  induction Hfront as [|n front Hn _ IH]; intros offsets db; simpl.
  - rewrite N.eqb_refl. exists [], db. rewrite app_nil_r. auto.
  - apply N.eqb_neq in Hn. rewrite Hn.
    pose proof (fun P => offset_aux_keeps P n largest_id db) as Hkeep.
    destruct (offset_aux coord_eqb n largest_id db) as [o db1].
    destruct (IH (offsets ++ [o]) db1) as (offsets' & db' & E & Hlen & HP).
    exists (o :: offsets'), db'. rewrite E, <- app_assoc. simpl.
    repeat split; auto.
Qed.

Lemma generate_offsets_spec (front : list N) (largest_id : N) db :
  Forall (fun m => (m < largest_id)%N) front ->
  exists offsets db',
    generate_offsets coord_eqb [] (front ++ [largest_id]) db = Ok offsets db'
    /\ length offsets = length front
    /\ (forall P : DronePlot coord -> Prop, Forall P db -> Forall P db').
Proof.
  intros Hfront. unfold generate_offsets. rewrite vec_at_last.
  destruct (generate_offsets_loop_spec largest_id front [] [] db)
    as (offsets & db' & E & Hlen & HP).
  { eapply Forall_impl; [|exact Hfront]. simpl. intros; lia. }
  rewrite E. simpl. eauto.
Qed.

Lemma tracker_index_front (n largest_id : N) (front : list N) :
  In n front ->
  position_in n front = Some (tracker_index n (front ++ [largest_id]))
  /\ tracker_index n (front ++ [largest_id]) < length front.
Proof.
  induction front as [|m rest IH]; simpl; [tauto|].
  intros Hin. destruct (N.eqb_spec n m) as [E|E].
  - split; [reflexivity|lia].
  - destruct IH as [-> Hlt]; [destruct Hin; congruence|].
    simpl. split; [reflexivity|lia].
Qed.

Lemma corrected_reference (largest_id : N) (offsets : list Z)
    (tracker : list N) p :
  node_id p = largest_id -> corrected largest_id offsets tracker p = p.
Proof. intros E. unfold corrected. now rewrite E, N.eqb_refl. Qed.

Lemma corrected_other (largest_id : N) (offsets : list Z)
    (tracker : list N) p :
  node_id p <> largest_id ->
  corrected largest_id offsets tracker p
  = set_timestamp p
      (to_time_t
         (timestamp p
          + nth (tracker_index (node_id p) tracker) offsets 0)%Z).
Proof. intros E. unfold corrected. apply N.eqb_neq in E. now rewrite E. Qed.

Lemma correct_timestamps_loop_spec (largest_id : N) (offsets : list Z)
    (tracker : list N) db :
  Forall (fun p => node_id p <> largest_id ->
                   tracker_index (node_id p) tracker < length offsets) db ->
  correct_timestamps_loop largest_id offsets tracker db
  = Ok tt (map (corrected largest_id offsets tracker) db).
Proof.
  induction 1 as [|p rest Hp _ IH]; simpl; [reflexivity|].
  rewrite IH.
  destruct (N.eqb_spec (node_id p) largest_id) as [E|E]; simpl.
  - now rewrite corrected_reference.
  - rewrite corrected_other, vec_at_nat by exact E.
    destruct (nth_error offsets (tracker_index (node_id p) tracker))
      as [o|] eqn:Eo.
    + simpl. now rewrite (nth_error_nth _ _ 0%Z Eo).
    + apply nth_error_None in Eo. specialize (Hp E). lia.
Qed.

(** Reconciliation of a non-empty database, step by step. *)
Lemma reconciliation_steps db :
  db <> [] ->
  exists front largest_id offsets db',
    sort_nodes (get_node_count [] (sortByTime db)) = front ++ [largest_id]
    /\ Forall (fun m => (m < largest_id)%N) front
    /\ generate_offsets coord_eqb [] (front ++ [largest_id]) (sortByTime db)
       = Ok offsets db'
    /\ length offsets = length front
    /\ Forall (fun p => In (node_id p) (front ++ [largest_id])) db'
    /\ correct_timestamps offsets (front ++ [largest_id]) db'
       = Ok tt (map (corrected largest_id offsets (front ++ [largest_id])) db').
Proof.
  intros Hdb.
  destruct (tracker_shape (sortByTime db) (sortByTime_nonempty db Hdb))
    as (front & largest_id & Etr & _ & Hfront & Hin).
  destruct (generate_offsets_spec front largest_id (sortByTime db) Hfront)
    as (offsets & db' & Egen & Hlen & HP).
  assert (Hnodes : Forall (fun p => In (node_id p) (front ++ [largest_id])) db').
  { apply HP. apply Forall_forall. intros p Hp. apply Hin.
    now apply in_map. }
  exists front, largest_id, offsets, db'. repeat split; auto.
  unfold correct_timestamps. rewrite vec_at_last.
  apply correct_timestamps_loop_spec.
  eapply Forall_impl; [|exact Hnodes]. simpl. intros p Hp Hne.
  rewrite Hlen. apply tracker_index_front.
  apply in_app_iff in Hp as [Hp|[Hp|[]]]; [exact Hp|congruence].
Qed.

(** C7: on a non-empty database, offset generation leaves one offset per
    node of the node set other than the reference node, and the correction
    pass adds to each remaining record of another node the offset at that
    node's position in the ascending node set without the reference node;
    records of the reference node are left as they are.  The addition is
    that of [time_t]: the sum itself whenever it lies in the range of
    [time_t], the sum modulo 2^64 otherwise. *)
Theorem correct_timestamps_by_position db :
  db <> [] ->
  let sorted := sortByTime db in
  let NodeSet := sort_nodes (get_node_count [] sorted) in
  let referenceNode := max_node NodeSet in
  exists offsets db' db'',
    generate_offsets coord_eqb [] NodeSet sorted = Ok offsets db'
    /\ length offsets = length NodeSet - 1
    /\ correct_timestamps offsets NodeSet db' = Ok tt db''
    /\ Forall2 (fun p p' =>
         if (node_id p =? referenceNode)%N then p' = p
         else exists i o,
                position_in (node_id p) (removelast NodeSet) = Some i
                /\ nth_error offsets i = Some o
                /\ p' = set_timestamp p (to_time_t (timestamp p + o))
                /\ (time_t_range (timestamp p + o) ->
                    p' = set_timestamp p (timestamp p + o)%Z)) db' db''.
Proof.
  intros Hdb sorted NodeSet referenceNode.
  destruct (reconciliation_steps db Hdb)
    as (front & largest_id & offsets & db' & Etr & Hfront & Egen & Hlen
        & Hnodes & Ecorr).
  subst referenceNode NodeSet sorted. rewrite Etr.
  rewrite (max_node_last front largest_id Hfront), removelast_last.
  exists offsets, db', (map (corrected largest_id offsets (front ++ [largest_id])) db').
  repeat split; auto.
  - rewrite length_app. simpl. lia.
  - clear Egen Ecorr. induction Hnodes as [|p rest Hp _ IH]; simpl;
      constructor; auto.
    destruct (N.eqb_spec (node_id p) largest_id) as [E|E];
      [now apply corrected_reference|].
    rewrite corrected_other by exact E.
    apply in_app_iff in Hp as [Hp|[Hp|[]]]; [|congruence].
    destruct (tracker_index_front (node_id p) largest_id front Hp)
      as [Epos Hlt].
    rewrite <- Hlen in Hlt. apply nth_error_Some in Hlt.
    destruct (nth_error offsets (tracker_index (node_id p) (front ++ [largest_id])))
      as [o|] eqn:Eo; [|congruence].
    exists (tracker_index (node_id p) (front ++ [largest_id])), o.
    rewrite (nth_error_nth _ _ 0%Z Eo).
    split; [exact Epos|]. split; [exact Eo|]. split; [reflexivity|].
    intros Hrange. now rewrite (to_time_t_small _ Hrange).
Qed.

(** C10: with no record in the database the tracker is empty, and both
    [generate_offsets] and [correct_timestamps] read [tracker[size - 1]]
    outside the empty vector; reconciliation returns exactly on the
    non-empty databases. *)
Theorem eventual_consistency_needs_records :
  get_node_count [] (sortByTime (@nil (DronePlot coord))) = []
  /\ size_minus_one (N.of_nat (length (@nil N))) = SIZE_MAX
  /\ (forall offsets db,
        generate_offsets coord_eqb offsets [] db = OutOfBounds)
  /\ (forall offsets db, correct_timestamps offsets [] db = OutOfBounds)
  /\ (forall db,
        (exists db', eventual_consistency coord_eqb db = Ok tt db')
        <-> db <> []).
Proof.
  split; [reflexivity|]. split; [reflexivity|].
  split; [|split].
  - intros offsets db. unfold generate_offsets. now rewrite vec_at_empty.
  - intros offsets db. unfold correct_timestamps. now rewrite vec_at_empty.
  - intros db. split.
    + intros [db' H] ->. discriminate.
    + intros Hdb.
      destruct (reconciliation_steps db Hdb)
        as (front & largest_id & offsets & db' & Etr & _ & Egen & _ & _
            & Ecorr).
      unfold eventual_consistency. rewrite Etr, Egen. simpl.
      rewrite Ecorr. eauto.
Qed.

End Offsets_facts.

(** ** Reconciliation: one duplicate per node *)

Section Single_duplicate.

Context {coord : Type} (coord_eqb : coord -> coord -> bool).

Implicit Types (p q a r : DronePlot coord) (db : Store coord).

Lemma no_match_positions (input_id largest_id : N) db i j a r :
  no_match coord_eqb input_id largest_id db ->
  i < j -> nth_error db i = Some a -> nth_error db j = Some r ->
  node_id a = input_id ->
  is_duplicate coord_eqb largest_id a r = false.
Proof.
  revert i j. induction db as [|p rest IH]; intros i j Hno Hij Hi Hj Ha.
  - destruct i; discriminate.
  - destruct Hno as [Hp Hrest]. destruct j as [|j]; [lia|]. simpl in Hj. destruct i as [|i]; simpl in Hi.
    + injection Hi as ->. specialize (Hp Ha).
      unfold no_duplicate_in in Hp. rewrite Forall_forall in Hp.
      apply Hp. eapply nth_error_In, Hj.
    + apply (IH i j); auto. lia.
Qed.

(** The outer loop of [offset_aux] either never finds a duplicate or stops
    at the first record that has one. *)
Lemma offset_aux_cases (input_id largest_id : N) db :
  no_match coord_eqb input_id largest_id db
  \/ exists pre a mid r post,
       db = pre ++ a :: mid ++ r :: post
       /\ first_match coord_eqb input_id largest_id pre a mid r post.
Proof.
  induction db as [|p rest IH]; [left; exact I|].
  destruct (N.eq_dec (node_id p) input_id) as [Ep|Ep].
  - destruct (find_duplicate coord_eqb largest_id p rest)
      as [[d rest']|] eqn:E.
    + right. apply find_duplicate_inv in E as (mid & post & -> & _ & Hmid & Hd).
      exists [], p, mid, d, post. split; [reflexivity|].
      repeat split; auto.
    + apply find_duplicate_none_inv in E.
      destruct IH as [IH|(pre & a & mid & r & post & -> & Hfm)].
      * left. split; auto.
      * right. exists (p :: pre), a, mid, r, post. split; [reflexivity|].
        destruct Hfm as (H1 & H2 & H3 & H4 & H5).
        apply Forall_app in E as [Epre Epost].
        repeat split; auto.
  - destruct IH as [IH|(pre & a & mid & r & post & -> & Hfm)].
    + left. split; [intros; contradiction|auto].
    + right. exists (p :: pre), a, mid, r, post. split; [reflexivity|].
      destruct Hfm as (H1 & H2 & H3 & H4 & H5).
      repeat split; auto; try (intros; contradiction).
      constructor; [intros; contradiction|auto].
Qed.

Lemma count_node_perm (n : N) db db' :
  Permutation db db' -> count_node n db = count_node n db'.
Proof.
  unfold count_node.
  induction 1 as [|p l l' _ IH|p q l|l l' l'' _ IH1 _ IH2]; simpl.
  - reflexivity.
  - destruct (node_id p =? n)%N; simpl; congruence.
  - destruct (node_id p =? n)%N, (node_id q =? n)%N; reflexivity.
  - congruence.
Qed.

Lemma count_node_app (n : N) db db' :
  count_node n (db ++ db') = count_node n db + count_node n db'.
Proof. unfold count_node. now rewrite filter_app, length_app. Qed.

Lemma count_node_corrected (n largest_id : N) (offsets : list Z)
    (tracker : list N) db :
  count_node n (map (corrected largest_id offsets tracker) db)
  = count_node n db.
Proof.
  unfold count_node. induction db as [|p rest IH]; simpl; [reflexivity|].
  assert (E : node_id (corrected largest_id offsets tracker p) = node_id p).
  { unfold corrected. now destruct (node_id p =? largest_id)%N. }
  rewrite E. destruct (node_id p =? n)%N; simpl; congruence.
Qed.

Lemma is_duplicate_node (largest_id : N) p q :
  is_duplicate coord_eqb largest_id p q = true -> node_id q = largest_id.
Proof.
  unfold is_duplicate. intros H.
  apply andb_true_iff in H as [_ H]. now apply N.eqb_eq.
Qed.

(** With one node [n] besides the reference node [ref], both present, the
    sorted tracker is [n; ref]. *)
Lemma tracker_two_nodes (n ref : N) db :
  (n < ref)%N ->
  Forall (fun p => node_id p = n \/ node_id p = ref) db ->
  In n (map (@node_id coord) db) -> In ref (map (@node_id coord) db) ->
  sort_nodes (get_node_count [] db) = [n; ref].
Proof.
  intros Hlt Hall Hn Href.
  assert (Hdb : db <> []) by (intros ->; contradiction).
  destruct (tracker_shape db Hdb) as (front & largest & -> & Hs & Hfront & Hin).
  assert (Hnodes : forall m, In m (front ++ [largest]) -> m = n \/ m = ref).
  { intros m Hm. apply Hin, in_map_iff in Hm as (p & <- & Hp).
    rewrite Forall_forall in Hall. auto. }
  assert (largest = ref) as ->.
  { destruct (Hnodes largest) as [E|E]; [apply in_app_iff; simpl; auto| |exact E].
    apply Hin, in_app_iff in Href as [Href|[Href|[]]]; [|congruence].
    rewrite Forall_forall in Hfront. specialize (Hfront _ Href). lia. }
  assert (Hn' : In n front).
  { apply Hin, in_app_iff in Hn as [Hn|[Hn|[]]]; [exact Hn|lia]. }
  assert (Hall' : forall m, In m front -> m = n).
  { intros m Hm. rewrite Forall_forall in Hfront. specialize (Hfront _ Hm).
    destruct (Hnodes m); [apply in_app_iff; auto|auto|lia]. }
  destruct front as [|m front]; [contradiction|].
  rewrite (Hall' m) by (simpl; auto).
  destruct front as [|k front]; [reflexivity|].
  simpl in Hs. inversion_clear Hs as [|? ? _ Hm].
  inversion_clear Hm as [|? ? Hk _].
  rewrite (Hall' m), (Hall' k) in Hk by (simpl; auto). lia.
Qed.

(** C4, as the code has it: when one node [n] besides the reference node
    has three records, two of which match two distinct records of the
    reference node, and some record of [n] has its match after it in the
    time-sorted database, reconciliation erases exactly one record of the
    reference node, the first duplicate after the first record of [n] that
    has one, and records the offset taken from that pair. *)
Theorem eventual_consistency_one_duplicate (n ref : N) db :
  (n < ref)%N ->
  Forall (fun p => node_id p = n \/ node_id p = ref) db ->
  count_node n db = 3 ->
  two_spatial_matches coord_eqb n ref db ->
  match_in_scan_order coord_eqb n ref (sortByTime db) ->
  exists pre a mid r post,
    sortByTime db = pre ++ a :: mid ++ r :: post
    /\ first_match coord_eqb n ref pre a mid r post
    /\ generate_offsets coord_eqb []
         (sort_nodes (get_node_count [] (sortByTime db))) (sortByTime db)
       = Ok [to_int (timestamp r - timestamp a)] (pre ++ a :: mid ++ post)
    /\ eventual_consistency coord_eqb db
       = Ok tt (map (corrected ref [to_int (timestamp r - timestamp a)]
                       [n; ref])
                  (pre ++ a :: mid ++ post))
    /\ count_node ref
         (map (corrected ref [to_int (timestamp r - timestamp a)] [n; ref])
            (pre ++ a :: mid ++ post)) + 1
       = count_node ref db
    /\ count_node n
         (map (corrected ref [to_int (timestamp r - timestamp a)] [n; ref])
            (pre ++ a :: mid ++ post))
       = 3.
Proof.
  intros Hlt Hall Hthree _ (i & j & a0 & r0 & Hij & Hi & Hj & Ha0 & Hdup0).
  pose proof (sortByTime_perm db) as Hperm.
  pose proof (vec_at_last [n] ref) as Hv. simpl app in Hv.
  destruct (offset_aux_cases n ref (sortByTime db))
    as [Hno|(pre & a & mid & r & post & Es & Hfm)].
  { rewrite (no_match_positions n ref _ i j a0 r0 Hno Hij Hi Hj Ha0)
      in Hdup0. discriminate. }
  exists pre, a, mid, r, post.
  pose proof Hfm as (_ & _ & Ha & _ & Hr).
  apply is_duplicate_node in Hr.
  assert (Hall' : Forall (fun p => node_id p = n \/ node_id p = ref)
                    (sortByTime db)).
  { rewrite Forall_forall in *. intros p Hp. apply Hall.
    eapply Permutation_in; [exact Hperm|exact Hp]. }
  assert (Etr : sort_nodes (get_node_count [] (sortByTime db)) = [n; ref]).
  { apply tracker_two_nodes; auto; rewrite Es, map_app, in_app_iff; simpl;
      [now auto|]. right. right. rewrite map_app, in_app_iff. simpl. auto. }
  assert (Egen : generate_offsets coord_eqb [] [n; ref] (sortByTime db)
                 = Ok [to_int (timestamp r - timestamp a)]
                      (pre ++ a :: mid ++ post)).
  { unfold generate_offsets. rewrite Hv. simpl.
    destruct (N.eqb_spec n ref) as [E|_]; [lia|].
    rewrite Es, (offset_aux_first_match coord_eqb n ref _ _ _ _ _ Hfm).
    now rewrite N.eqb_refl. }
  assert (Hcount : forall m, count_node m (sortByTime db)
            = count_node m (pre ++ a :: mid ++ post)
              + (if (node_id r =? m)%N then 1 else 0)).
  { intros m. rewrite Es.
    change (a :: mid ++ r :: post) with ((a :: mid) ++ r :: post).
    change (a :: mid ++ post) with ((a :: mid) ++ post).
    rewrite !count_node_app. unfold count_node at 3. simpl.
    destruct (node_id r =? m)%N; simpl; fold (count_node m post); lia. }
  split; [exact Es|]. split; [exact Hfm|].
  split; [rewrite Etr; exact Egen|]. split; [|split].
  - unfold eventual_consistency. rewrite Etr, Egen. simpl.
    unfold correct_timestamps. rewrite Hv.
    apply correct_timestamps_loop_spec.
    rewrite Es in Hall'. apply Forall_app in Hall' as [Hpre Hrest].
    inversion_clear Hrest as [|? ? Hpa Hrest'].
    apply Forall_app in Hrest' as [Hmid Hpost].
    inversion_clear Hpost as [|? ? _ Hpost'].
    assert (Hremaining : Forall (fun p => node_id p = n \/ node_id p = ref)
                           (pre ++ a :: mid ++ post)).
    { apply Forall_app. split; auto. constructor; auto.
      apply Forall_app. auto. }
    eapply Forall_impl; [|exact Hremaining]. simpl.
    intros p [E|E] Hne; [|contradiction].
    rewrite E, N.eqb_refl. lia.
  - rewrite count_node_corrected.
    rewrite <- (count_node_perm ref _ _ Hperm), Hcount, Hr, N.eqb_refl.
    reflexivity.
  - rewrite count_node_corrected.
    rewrite <- Hthree, <- (count_node_perm n _ _ Hperm), Hcount, Hr.
    destruct (N.eqb_spec ref n); lia.
Qed.

End Single_duplicate.

(** ** The count in front of a batch *)

Lemma byte_of_N_to_N (n : N) : Byte.to_N (byte_of_N n) = (n mod 256)%N.
Proof.
  unfold byte_of_N. destruct (Byte.of_N (n mod 256)) as [b|] eqn:E.
  - now apply Byte.to_of_N.
  - apply Byte.of_N_None_iff in E.
    pose proof (N.mod_upper_bound n 256 ltac:(lia)). lia.
Qed.

Lemma count_limbs (count : N) :
  (count < 4294967296)%N ->
  (count mod 256 + 256 * (count / 256 mod 256)
   + 65536 * (count / 65536 mod 256)
   + 16777216 * (count / 16777216 mod 256))%N = count.
Proof.
  intros H.
  pose proof (N.Div0.div_mod count 256).
  pose proof (N.mod_upper_bound count 256 ltac:(lia)).
  pose proof (N.Div0.div_mod (count / 256) 256).
  pose proof (N.mod_upper_bound (count / 256) 256 ltac:(lia)).
  pose proof (N.Div0.div_mod (count / 256 / 256) 256).
  pose proof (N.mod_upper_bound (count / 256 / 256) 256 ltac:(lia)).
  replace (count / 65536)%N with (count / 256 / 256)%N
    by (rewrite N.Div0.div_div; reflexivity).
  replace (count / 16777216)%N with (count / 256 / 256 / 256)%N
    by (rewrite !N.Div0.div_div; reflexivity).
  assert (count / 256 / 256 / 256 < 256)%N.
  { apply N.Div0.div_lt_upper_bound.
    apply N.Div0.div_lt_upper_bound.
    apply N.Div0.div_lt_upper_bound. lia. }
  rewrite (N.mod_small (count / 256 / 256 / 256) 256) by assumption.
  lia.
Qed.

Lemma le_value_count_bytes (count : N) :
  (count < 2 ^ 32)%N -> le_value (count_bytes count) = count.
Proof.
  intros H. unfold count_bytes. cbn [le_value].
  rewrite !byte_of_N_to_N, N.mul_0_r, N.add_0_r.
  rewrite <- (count_limbs count H) at 5. lia.
Qed.

Lemma read_count_first_four (data : list byte) :
  (4 <= N.of_nat (length data))%N ->
  read_count data = le_value (firstn 4 data).
Proof.
  intros H.
  destruct data as [|b0 [|b1 [|b2 [|b3 rest]]]]; simpl in H; try lia.
  cbn [read_count firstn le_value]. lia.
Qed.

(** ** Replication: ingestion of a batch *)

Section Ingestion_facts.

Context {coord : Type}.
Variable getDataSize : N.
Variable deserialize : list byte -> DronePlot coord.
Variable DBFLAG_NEW : N.

Implicit Types (data : list byte) (db : Store coord).

Lemma vec_range_inside data (first len : N) :
  (first + len <= N.of_nat (length data))%N ->
  exists plot, vec_range data first len = Some plot.
Proof.
  intros H. unfold vec_range.
  destruct (N.leb_spec (first + len) (N.of_nat (length data))) as [_|Hgt];
    [eauto|lia].
Qed.

Lemma vec_range_outside data (first len : N) :
  (N.of_nat (length data) < first + len)%N ->
  vec_range data first len = None.
Proof.
  intros H. unfold vec_range.
  destruct (N.leb_spec (first + len) (N.of_nat (length data))) as [Hle|_];
    [lia|auto].
Qed.

Lemma addReplDronePlots_loop_inside (todo : nat) (dptr : N) data db :
  (dptr + N.of_nat todo * getDataSize <= N.of_nat (length data))%N ->
  exists added,
    addReplDronePlots_loop getDataSize deserialize DBFLAG_NEW
      todo dptr data db = Ok tt (db ++ added)
    /\ length added = todo.
Proof.
  revert dptr db. induction todo as [|todo IH]; intros dptr db H; simpl.
  - exists []. now rewrite app_nil_r.
  - destruct (vec_range_inside data dptr getDataSize) as [plot ->]; [lia|].
    destruct (IH (dptr + getDataSize)%N
                 (addSingleDronePlot deserialize DBFLAG_NEW plot db))
      as (added & -> & Hlen); [lia|].
    unfold addSingleDronePlot, addPlot. rewrite <- app_assoc. simpl.
    eexists. split; [reflexivity|]. simpl. now rewrite Hlen.
Qed.

Lemma addReplDronePlots_loop_outside (todo : nat) (dptr : N) data db :
  (0 < getDataSize)%N ->
  (dptr <= N.of_nat (length data))%N ->
  (N.of_nat (length data) < dptr + N.of_nat todo * getDataSize)%N ->
  addReplDronePlots_loop getDataSize deserialize DBFLAG_NEW
    todo dptr data db = OutOfBounds.
Proof.
  intros Hpos. revert dptr db.
  induction todo as [|todo IH]; intros dptr db Hle H; simpl; [lia|].
  destruct (N.le_gt_cases (dptr + getDataSize) (N.of_nat (length data)))
    as [Hin|Hout].
  - destruct (vec_range_inside data dptr getDataSize Hin) as [plot ->].
    apply IH; lia.
  - now rewrite vec_range_outside.
Qed.

(** C5: a payload shorter than 4 bytes is refused as truncated, and one of
    at least 4 bytes whose length minus 4 is no multiple of the record size
    is refused as misaligned; in both cases the database is left as it
    was. *)
Theorem addReplDronePlots_rejects data db :
  (0 < getDataSize)%N ->
  ((N.of_nat (length data) < 4)%N ->
     addReplDronePlots getDataSize deserialize DBFLAG_NEW data db
     = Throw TruncatedBatch db)
  /\ ((4 <= N.of_nat (length data))%N ->
      ((N.of_nat (length data) - 4) mod getDataSize <> 0)%N ->
      addReplDronePlots getDataSize deserialize DBFLAG_NEW data db
      = Throw MisalignedBatch db).
Proof.
  intros _. unfold addReplDronePlots. split.
  - intros Hshort.
    now destruct (N.ltb_spec (N.of_nat (length data)) 4) as [_|Hge]; [|lia].
  - intros Hlong Hmod.
    destruct (N.ltb_spec (N.of_nat (length data)) 4) as [Hlt|_]; [lia|].
    now destruct (N.eqb_spec ((N.of_nat (length data) - 4) mod getDataSize) 0).
Qed.

(** C9: a payload that passes both length checks is decoded for as many
    records as its count prefix says, the number held by its first four
    bytes, whatever its length: when the records fit, exactly that many are
    appended; when the count times the record size exceeds the length
    minus 4, a record is read past the end of the buffer. *)
Theorem addReplDronePlots_trusts_count data db :
  (0 < getDataSize)%N ->
  (4 <= N.of_nat (length data))%N ->
  ((N.of_nat (length data) - 4) mod getDataSize = 0)%N ->
  ((le_value (firstn 4 data) * getDataSize
    <= N.of_nat (length data) - 4)%N ->
     exists added,
       addReplDronePlots getDataSize deserialize DBFLAG_NEW data db
       = Ok tt (db ++ added)
       /\ N.of_nat (length added) = le_value (firstn 4 data))
  /\ ((N.of_nat (length data) - 4
       < le_value (firstn 4 data) * getDataSize)%N ->
      addReplDronePlots getDataSize deserialize DBFLAG_NEW data db
      = OutOfBounds).
Proof.
  intros Hpos Hlen Hmod. unfold addReplDronePlots.
  destruct (N.ltb_spec (N.of_nat (length data)) 4) as [Hlt|_]; [lia|].
  rewrite Hmod, (read_count_first_four data Hlen), N.eqb_refl.
  cbn [negb]. split; intros H.
  - destruct (addReplDronePlots_loop_inside
                (N.to_nat (le_value (firstn 4 data))) 4 data db)
      as (added & -> & Hadded); [lia|].
    exists added. split; [reflexivity|lia].
  - apply addReplDronePlots_loop_outside; [assumption|lia|lia].
Qed.

End Ingestion_facts.

(** ** Replication: the broadcast scan *)

Section Broadcast_facts.

Context {coord : Type}.
Variable getDataSize : N.
Variable serialize : DronePlot coord -> list byte.
Variable DBFLAG_NEW : N.

Implicit Types (p : DronePlot coord) (db : Store coord) (sv : Server coord).

Lemma land_ldiff_same (a f : N) : N.land (N.ldiff a f) f = 0%N.
Proof.
  apply N.bits_inj. intros i.
  rewrite N.land_spec, N.ldiff_spec, N.bits_0.
  now destruct (N.testbit a i), (N.testbit f i).
Qed.

Lemma ldiff_ldiff_same (a f : N) : N.ldiff (N.ldiff a f) f = N.ldiff a f.
Proof.
  apply N.bits_inj. intros i. rewrite !N.ldiff_spec.
  now destruct (N.testbit a i), (N.testbit f i).
Qed.

Lemma clrFlags_clears p : isFlagSet (clrFlags p DBFLAG_NEW) DBFLAG_NEW = false.
Proof.
  unfold isFlagSet, clrFlags. simpl. now rewrite land_ldiff_same.
Qed.

(** What the scan does to one record. *)
Lemma after_scan_spec p :
  (isFlagSet p DBFLAG_NEW = true ->
     isFlagSet (after_scan DBFLAG_NEW p) DBFLAG_NEW = false)
  /\ (isFlagSet p DBFLAG_NEW = false -> after_scan DBFLAG_NEW p = p)
  /\ drone_id (after_scan DBFLAG_NEW p) = drone_id p
  /\ node_id (after_scan DBFLAG_NEW p) = node_id p
  /\ timestamp (after_scan DBFLAG_NEW p) = timestamp p
  /\ latitude (after_scan DBFLAG_NEW p) = latitude p
  /\ longitude (after_scan DBFLAG_NEW p) = longitude p
  /\ N.ldiff (flags (after_scan DBFLAG_NEW p)) DBFLAG_NEW
     = N.ldiff (flags p) DBFLAG_NEW.
Proof.
  unfold after_scan.
  destruct (isFlagSet p DBFLAG_NEW) eqn:E; simpl.
  - rewrite clrFlags_clears, ldiff_ldiff_same. repeat split. discriminate.
  - repeat split. discriminate.
Qed.

Lemma to_uint_small (n : N) : (n < 2 ^ 32)%N -> to_uint n = n.
Proof. intros H. unfold to_uint. now apply N.mod_small. Qed.

Lemma to_uint_bound (n : N) : (to_uint n < 2 ^ 32)%N.
Proof. unfold to_uint. apply N.mod_upper_bound. lia. Qed.

Section Codec.

Hypothesis getDataSize_pos : (0 < getDataSize)%N.
Hypothesis serialize_size :
  forall p, N.of_nat (length (serialize p)) = getDataSize.

Lemma queueNewPlots_loop_spec (marshall_data : list byte) (count : N) db :
  (N.of_nat (length marshall_data) mod getDataSize = 0)%N ->
  (count < 2 ^ 32)%N ->
  queueNewPlots_loop getDataSize serialize DBFLAG_NEW marshall_data count db
  = Ok (marshall_data ++ concat (map serialize (new_plots DBFLAG_NEW db)),
        to_uint (count + N.of_nat (length (new_plots DBFLAG_NEW db))))
       (map (after_scan DBFLAG_NEW) db).
Proof.
  revert marshall_data count.
  induction db as [|p rest IH]; intros marshall_data count Hmod Hcount.
  - simpl. now rewrite app_nil_r, N.add_0_r, to_uint_small.
  - simpl. unfold after_scan at 1.
    destruct (isFlagSet p DBFLAG_NEW) eqn:E.
    + assert (Hmod' : (N.of_nat (length (marshall_data ++ serialize p))
                      mod getDataSize = 0)%N).
      { rewrite length_app, Nat2N.inj_add, serialize_size.
        rewrite <- (N.mul_1_l getDataSize) at 1.
        now rewrite N.Div0.mod_add. }
      rewrite Hmod'. simpl.
      rewrite (IH _ _ Hmod' (to_uint_bound _)). simpl.
      rewrite <- app_assoc. do 2 f_equal.
      unfold to_uint. rewrite N.Div0.add_mod_idemp_l. f_equal. lia.
    + rewrite Hmod. simpl. now rewrite (IH _ _ Hmod Hcount).
Qed.

Lemma queueNewPlots_spec sv :
  let count := to_uint (N.of_nat (length (new_plots DBFLAG_NEW (plotdb sv)))) in
  let db' := map (after_scan DBFLAG_NEW) (plotdb sv) in
  queueNewPlots getDataSize serialize DBFLAG_NEW sv
  = if (count =? 0)%N then Ok 0%N (mkServer db' (sent sv) (last_repl sv))
    else Ok count
           (mkServer db'
              (sent sv ++
               [count_bytes count
                ++ concat (map serialize (new_plots DBFLAG_NEW (plotdb sv)))])
              (last_repl sv)).
Proof.
  unfold queueNewPlots. rewrite queueNewPlots_loop_spec.
  - simpl. reflexivity.
  - simpl. now apply N.Div0.mod_0_l.
  - reflexivity.
Qed.

Lemma after_scan_unflagged db :
  new_plots DBFLAG_NEW db = [] -> map (after_scan DBFLAG_NEW) db = db.
Proof.
  unfold new_plots, after_scan.
  induction db as [|p rest IH]; simpl; [reflexivity|].
  destruct (isFlagSet p DBFLAG_NEW); [discriminate|].
  intros H. now rewrite IH.
Qed.

(** C6: one scan of [queueNewPlots] returns, and position by position the
    database it leaves has the pending flag cleared on every record that
    carried it, is unchanged on every record that did not, and keeps every
    other field, and every other bit of the flag mask, of every record. *)
Theorem queueNewPlots_clears_flags sv :
  exists count sv',
    queueNewPlots getDataSize serialize DBFLAG_NEW sv = Ok count sv'
    /\ Forall2 (fun p p' =>
         (isFlagSet p DBFLAG_NEW = true -> isFlagSet p' DBFLAG_NEW = false)
         /\ (isFlagSet p DBFLAG_NEW = false -> p' = p)
         /\ drone_id p' = drone_id p
         /\ node_id p' = node_id p
         /\ timestamp p' = timestamp p
         /\ latitude p' = latitude p
         /\ longitude p' = longitude p
         /\ N.ldiff (flags p') DBFLAG_NEW = N.ldiff (flags p) DBFLAG_NEW)
       (plotdb sv) (plotdb sv').
Proof.
  assert (H : Forall2 (fun p p' =>
         (isFlagSet p DBFLAG_NEW = true -> isFlagSet p' DBFLAG_NEW = false)
         /\ (isFlagSet p DBFLAG_NEW = false -> p' = p)
         /\ drone_id p' = drone_id p
         /\ node_id p' = node_id p
         /\ timestamp p' = timestamp p
         /\ latitude p' = latitude p
         /\ longitude p' = longitude p
         /\ N.ldiff (flags p') DBFLAG_NEW = N.ldiff (flags p) DBFLAG_NEW)
       (plotdb sv) (map (after_scan DBFLAG_NEW) (plotdb sv))).
  { induction (plotdb sv) as [|p rest IH]; simpl; constructor; auto.
    apply after_scan_spec. }
  rewrite queueNewPlots_spec. simpl.
  destruct (to_uint (N.of_nat (length (new_plots DBFLAG_NEW (plotdb sv))))
            =? 0)%N; eexists; eexists; (split; [reflexivity|exact H]).
Qed.

(** C8: a pass of the replication loop scans and broadcasts exactly when
    the adjusted time exceeds [_last_repl] by more than 20: then every
    pending record is sent in one batch behind its count, the flags are
    cleared and [_last_repl] takes the new reading; otherwise the server is
    left as it was.  A scan that finds no pending record returns 0 and sends
    nothing.  The batch is four bytes that hold the number of pending
    records, followed by the serialized records. *)
Theorem replicate_broadcast_when_due (now now' : Z) sv :
  (N.of_nat (length (new_plots DBFLAG_NEW (plotdb sv))) < 2 ^ 32)%N ->
  (replicate_due now sv = true <-> (now - last_repl sv > 20)%Z)
  /\ (replicate_due now sv = true ->
      replicate_broadcast getDataSize serialize DBFLAG_NEW now now' sv
      = Ok tt
          (mkServer (map (after_scan DBFLAG_NEW) (plotdb sv))
             (match new_plots DBFLAG_NEW (plotdb sv) with
              | [] => sent sv
              | pending => sent sv ++ [batch_of serialize pending]
              end)
             now'))
  /\ (replicate_due now sv = false ->
      replicate_broadcast getDataSize serialize DBFLAG_NEW now now' sv
      = Ok tt sv)
  /\ (new_plots DBFLAG_NEW (plotdb sv) = [] ->
      queueNewPlots getDataSize serialize DBFLAG_NEW sv
      = Ok 0%N (mkServer (plotdb sv) (sent sv) (last_repl sv)))
  /\ (forall (deserialize : list byte -> DronePlot coord) inbound,
        replicate_iteration getDataSize serialize deserialize DBFLAG_NEW
          now now' inbound sv
        = and_then
            (replicate_broadcast getDataSize serialize DBFLAG_NEW now now' sv)
            (fun _ sv' =>
               replicate_drain getDataSize deserialize DBFLAG_NEW inbound sv'))
  /\ (exists prefix,
        batch_of serialize (new_plots DBFLAG_NEW (plotdb sv))
        = prefix ++ concat (map serialize (new_plots DBFLAG_NEW (plotdb sv)))
        /\ length prefix = 4
        /\ le_value prefix
           = N.of_nat (length (new_plots DBFLAG_NEW (plotdb sv)))).
Proof.
  intros Hfits.
  split; [|split; [|split; [|split; [|split; [reflexivity|]]]]];
    [| | | |exists (count_bytes
                     (N.of_nat (length (new_plots DBFLAG_NEW (plotdb sv)))));
            split; [reflexivity|];
            split; [reflexivity|now apply le_value_count_bytes]].
  - unfold replicate_due, secs_between_repl.
    destruct (Z.gtb_spec (now - last_repl sv) 20); split; intros;
      try lia; try reflexivity; discriminate.
  - intros Hdue. unfold replicate_broadcast. rewrite Hdue.
    rewrite queueNewPlots_spec. simpl. rewrite (to_uint_small _ Hfits).
    unfold batch_of.
    destruct (new_plots DBFLAG_NEW (plotdb sv)) as [|p pending]; simpl;
      [reflexivity|].
    destruct (N.eqb_spec (N.pos (Pos.of_succ_nat (length pending))) 0);
      [discriminate|reflexivity].
  - intros Hdue. unfold replicate_broadcast. now rewrite Hdue.
  - intros Hnone. rewrite queueNewPlots_spec. simpl.
    now rewrite Hnone, after_scan_unflagged.
Qed.

End Codec.

End Broadcast_facts.

(** ** Sample runs *)

Lemma eventual_consistency_two_nodes_run :
  (10 =? 10)%Z = true /\ (20 =? 20)%Z = true
  /\ eventual_consistency Z.eqb store12
     = Ok tt [mkPlot 7%N 1%N 150%Z 10%Z 20%Z 0%N].
Proof.
  split; [reflexivity|]. split; [reflexivity|].
  apply (eventual_consistency_two_nodes Z.eqb 10%Z 20%Z 7%N 7%N 0%N 0%N);
    reflexivity.
Defined.

(** C2 as stated fails: with timestamps -1 and 2147483647 the difference
    2147483648 does not fit the [int] that [offset_aux] returns. *)
Lemma offset_aux_single_pair_overflow :
  offset_aux Z.eqb 1%N 2%N store_far = ((-2147483648)%Z, [plot_far_node1])
  /\ fst (offset_aux Z.eqb 1%N 2%N store_far)
     <> (timestamp plot_far_node2 - timestamp plot_far_node1)%Z.
Proof. split; [reflexivity|]. vm_compute. discriminate. Qed.

Lemma offset_aux_single_pair_run :
  1%N <> 2%N /\ int_range (timestamp plot12_node2 - timestamp plot12_node1)
  /\ offset_aux Z.eqb 1%N 2%N store12 = (50%Z, [plot12_node1]).
Proof.
  split; [discriminate|].
  assert (Hr : int_range (timestamp plot12_node2 - timestamp plot12_node1)).
  { unfold int_range. simpl. lia. }
  split; [exact Hr|].
  destruct (offset_aux_single_pair Z.eqb 1%N 2%N
              [] plot12_node1 [] plot12_node2 []
              ltac:(discriminate) eq_refl eq_refl (Forall_nil _)
              eq_refl eq_refl)
    as [Hrun Hfits].
  rewrite (Hfits Hr) in Hrun. exact Hrun.
Defined.

Lemma offset_aux_without_match_run :
  1%N <> 2%N /\ offset_aux Z.eqb 1%N 2%N store21 = (0%Z, store21).
Proof.
  split; [discriminate|].
  apply (offset_aux_without_match_keeps_store Z.eqb 1%N 2%N store21);
    [discriminate|].
  intros i j p r Hij Hi Hj Hp Hr.
  destruct i as [|[|i]]; simpl in Hi.
  - injection Hi as <-. discriminate.
  - destruct j as [|[|j]]; simpl in Hj; [lia|lia|].
    destruct j; discriminate.
  - destruct i; discriminate.
Defined.

(** C4 as stated fails: when the reference node's clock runs behind, its
    matching records sort before the records they match, the forward scan
    finds nothing and no record is erased. *)
Lemma eventual_consistency_reference_behind :
  (1 < 2)%N
  /\ Forall (fun p => node_id p = 1%N \/ node_id p = 2%N) store_behind
  /\ count_node 1%N store_behind = 3
  /\ two_spatial_matches Z.eqb 1%N 2%N store_behind
  /\ eventual_consistency Z.eqb store_behind = Ok tt store_behind
  /\ count_node 2%N store_behind = 2.
Proof.
  split; [reflexivity|]. split.
  { apply Forall_forall. intros p Hp. simpl in Hp.
    repeat destruct Hp as [<-|Hp]; simpl; auto; contradiction. }
  split; [reflexivity|]. split.
  { exists 2, 3, 0, 1. do 4 eexists.
    repeat split; try reflexivity; discriminate. }
  split; reflexivity.
Qed.

Lemma eventual_consistency_one_duplicate_run :
  (1 < 2)%N
  /\ count_node 1%N store_ahead = 3
  /\ exists pre a mid r post,
       sortByTime store_ahead = pre ++ a :: mid ++ r :: post
       /\ first_match Z.eqb 1%N 2%N pre a mid r post
       /\ generate_offsets Z.eqb []
            (sort_nodes (get_node_count [] (sortByTime store_ahead)))
            (sortByTime store_ahead)
          = Ok [to_int (timestamp r - timestamp a)] (pre ++ a :: mid ++ post)
       /\ eventual_consistency Z.eqb store_ahead
          = Ok tt (map (corrected 2%N [to_int (timestamp r - timestamp a)]
                          [1%N; 2%N])
                     (pre ++ a :: mid ++ post))
       /\ count_node 2%N
            (map (corrected 2%N [to_int (timestamp r - timestamp a)]
                    [1%N; 2%N])
               (pre ++ a :: mid ++ post)) + 1
          = count_node 2%N store_ahead
       /\ count_node 1%N
            (map (corrected 2%N [to_int (timestamp r - timestamp a)]
                    [1%N; 2%N])
               (pre ++ a :: mid ++ post))
          = 3.
Proof.
  split; [reflexivity|]. split; [reflexivity|].
  apply (eventual_consistency_one_duplicate Z.eqb 1%N 2%N store_ahead).
  - reflexivity.
  - apply Forall_forall. intros p Hp. simpl in Hp.
    repeat destruct Hp as [<-|Hp]; simpl; auto; contradiction.
  - reflexivity.
  - exists 0, 1, 4, 3. do 4 eexists.
    repeat split; try reflexivity; discriminate.
  - exists 0, 4. do 2 eexists.
    repeat split; try reflexivity. lia.
Defined.

Lemma addReplDronePlots_rejects_run :
  addReplDronePlots 2%N sample_deserialize 1%N [x00] store12
  = Throw TruncatedBatch store12
  /\ addReplDronePlots 2%N sample_deserialize 1%N
       [x01; x00; x00; x00; x01] store12
     = Throw MisalignedBatch store12.
Proof.
  split.
  - apply (proj1 (addReplDronePlots_rejects 2%N sample_deserialize 1%N
                    [x00] store12 eq_refl)).
    reflexivity.
  - apply (proj2 (addReplDronePlots_rejects 2%N sample_deserialize 1%N
                    [x01; x00; x00; x00; x01] store12 eq_refl)).
    + simpl. lia.
    + simpl. discriminate.
Defined.

Lemma queueNewPlots_clears_flags_run :
  exists count sv',
    queueNewPlots 2%N sample_serialize 1%N sample_server = Ok count sv'
    /\ Forall2 (fun p p' =>
         (isFlagSet p 1%N = true -> isFlagSet p' 1%N = false)
         /\ (isFlagSet p 1%N = false -> p' = p)
         /\ drone_id p' = drone_id p
         /\ node_id p' = node_id p
         /\ timestamp p' = timestamp p
         /\ latitude p' = latitude p
         /\ longitude p' = longitude p
         /\ N.ldiff (flags p') 1%N = N.ldiff (flags p) 1%N)
       (plotdb sample_server) (plotdb sv').
Proof.
  apply (queueNewPlots_clears_flags 2%N sample_serialize 1%N).
  - reflexivity.
  - intros p. reflexivity.
Defined.

Lemma correct_timestamps_by_position_run :
  store_three <> []
  /\ generate_offsets Z.eqb [] [1%N; 2%N; 3%N] store_three
     = Ok [50%Z; 45%Z] store_three_left
  /\ length [50%Z; 45%Z] = length [1%N; 2%N; 3%N] - 1
  /\ correct_timestamps [50%Z; 45%Z] [1%N; 2%N; 3%N] store_three_left
     = Ok tt store_three_corrected
  /\ Forall2 (fun p p' =>
       if (node_id p =? 3)%N then p' = p
       else exists i o,
              position_in (node_id p) [1%N; 2%N] = Some i
              /\ nth_error [50%Z; 45%Z] i = Some o
              /\ p' = set_timestamp p (to_time_t (timestamp p + o))
              /\ (time_t_range (timestamp p + o) ->
                  p' = set_timestamp p (timestamp p + o)%Z))
       store_three_left store_three_corrected.
Proof.
  assert (Hne : store_three <> []) by discriminate.
  pose proof (correct_timestamps_by_position Z.eqb store_three Hne) as T.
  cbv zeta in T.
  destruct T as (offsets & db' & db'' & Hgen & Hlen & Hcorr & HF).
  assert (Egen : generate_offsets Z.eqb []
                   (sort_nodes (get_node_count [] (sortByTime store_three)))
                   (sortByTime store_three)
                 = Ok [50%Z; 45%Z] store_three_left) by reflexivity.
  rewrite Egen in Hgen. injection Hgen as <- <-.
  assert (Ecorr : correct_timestamps [50%Z; 45%Z]
                    (sort_nodes (get_node_count [] (sortByTime store_three)))
                    store_three_left
                  = Ok tt store_three_corrected) by reflexivity.
  rewrite Ecorr in Hcorr. injection Hcorr as <-.
  split; [exact Hne|]. split; [exact Egen|]. split; [exact Hlen|].
  split; [exact Ecorr|exact HF].
Defined.

Lemma replicate_broadcast_when_due_run :
  replicate_due 21%Z sample_server = true
  /\ replicate_broadcast 2%N sample_serialize 1%N 21%Z 22%Z sample_server
     = Ok tt
         (mkServer (plotdb sample_server_scanned)
            [[x02; x00; x00; x00; x01; x07; x01; x09]] 22%Z)
  /\ replicate_broadcast 2%N sample_serialize 1%N 20%Z 22%Z sample_server
     = Ok tt sample_server
  /\ batch_of sample_serialize (new_plots 1%N (plotdb sample_server))
     = [x02; x00; x00; x00] ++ [x01; x07; x01; x09]
  /\ le_value [x02; x00; x00; x00] = 2%N.
Proof.
  destruct (replicate_broadcast_when_due 2%N sample_serialize 1%N
              eq_refl (fun p => eq_refl) 21%Z 22%Z sample_server eq_refl)
    as (_ & Hdue & _ & _ & _ & prefix & Ebatch & Hlen & Hvalue).
  destruct (replicate_broadcast_when_due 2%N sample_serialize 1%N
              eq_refl (fun p => eq_refl) 20%Z 22%Z sample_server eq_refl)
    as (_ & _ & Hnot & _ & _ & _).
  assert (Eprefix : prefix = [x02; x00; x00; x00]).
  { apply (app_inv_tail
             (concat (map sample_serialize
                        (new_plots 1%N (plotdb sample_server))))).
    rewrite <- Ebatch. reflexivity. }
  subst prefix.
  split; [reflexivity|]. split; [exact (Hdue eq_refl)|].
  split; [exact (Hnot eq_refl)|]. split; [exact Ebatch|exact Hvalue].
Defined.

Lemma addReplDronePlots_trusts_count_run :
  le_value (firstn 4 payload_short) = 2%N
  /\ addReplDronePlots 2%N sample_deserialize 1%N payload_short store12
     = OutOfBounds
  /\ le_value (firstn 4 payload_long) = 1%N
  /\ exists added,
       addReplDronePlots 2%N sample_deserialize 1%N payload_long store12
       = Ok tt (store12 ++ added)
       /\ N.of_nat (length added) = 1%N.
Proof.
  split; [reflexivity|]. split.
  - apply (proj2 (addReplDronePlots_trusts_count 2%N sample_deserialize 1%N
                    payload_short store12 eq_refl
                    ltac:(simpl; lia) eq_refl)).
    reflexivity.
  - split; [reflexivity|].
    apply (proj1 (addReplDronePlots_trusts_count 2%N sample_deserialize 1%N
                    payload_long store12 eq_refl
                    ltac:(simpl; lia) eq_refl)).
    simpl. lia.
Defined.

(** ** Reconciliation: what it keeps *)

Section Conservation.

Context {coord : Type} (coord_eqb : coord -> coord -> bool).

Implicit Types (p q a r : DronePlot coord) (db : Store coord).

(** X1: [offset_aux] has two outcomes only.  Either no record of node
    [input_id] has a duplicate after it, and it returns 0 and leaves the
    database as it was; or it erases one record, of node [largest_id]: the
    first duplicate that follows the first record of [input_id] having one,
    and returns the difference of their timestamps stored in an [int]. *)
Theorem offset_aux_outcomes (input_id largest_id : N) db :
  (no_match coord_eqb input_id largest_id db
   /\ offset_aux coord_eqb input_id largest_id db = (0%Z, db))
  \/ (exists pre a mid r post,
        db = pre ++ a :: mid ++ r :: post
        /\ first_match coord_eqb input_id largest_id pre a mid r post
        /\ node_id r = largest_id
        /\ offset_aux coord_eqb input_id largest_id db
           = (to_int (timestamp r - timestamp a), pre ++ a :: mid ++ post)).
Proof.
  destruct (offset_aux_cases coord_eqb input_id largest_id db)
    as [Hno|(pre & a & mid & r & post & -> & Hfm)].
  - left. split; [exact Hno|]. now apply offset_aux_no_match.
  - right. exists pre, a, mid, r, post. split; [reflexivity|].
    split; [exact Hfm|]. split.
    + destruct Hfm as (_ & _ & _ & _ & Hr).
      exact (is_duplicate_node coord_eqb largest_id a r Hr).
    + now apply offset_aux_first_match.
Qed.

Lemma count_node_erase (m : N) (front : Store coord) r (back : Store coord) :
  count_node m (front ++ r :: back)
  = count_node m (front ++ back) + (if (node_id r =? m)%N then 1 else 0).
Proof.
  rewrite !count_node_app. unfold count_node at 2. simpl.
  destruct (node_id r =? m)%N; simpl; fold (count_node m back); lia.
Qed.

(** One call of [offset_aux] erases at most one record, and only of node
    [largest_id]. *)
Lemma offset_aux_counts (input_id largest_id : N) db :
  (forall m, m <> largest_id ->
     count_node m (snd (offset_aux coord_eqb input_id largest_id db))
     = count_node m db)
  /\ length (snd (offset_aux coord_eqb input_id largest_id db)) <= length db
  /\ length db
     <= length (snd (offset_aux coord_eqb input_id largest_id db)) + 1.
Proof.
  destruct (offset_aux_cases coord_eqb input_id largest_id db)
    as [Hno|(pre & a & mid & r & post & -> & Hfm)].
  - rewrite (offset_aux_no_match coord_eqb _ _ _ Hno). simpl.
    repeat split; auto; lia.
  - rewrite (offset_aux_first_match coord_eqb _ _ _ _ _ _ _ Hfm). simpl.
    destruct Hfm as (_ & _ & _ & _ & Hr).
    apply is_duplicate_node in Hr.
    split; [|rewrite !length_app; simpl; rewrite !length_app; simpl; lia].
    intros m Hm.
    change (a :: mid ++ r :: post) with ((a :: mid) ++ r :: post).
    change (a :: mid ++ post) with ((a :: mid) ++ post).
    rewrite !app_assoc, count_node_erase, Hr.
    destruct (N.eqb_spec largest_id m); [congruence|lia].
Qed.

Lemma generate_offsets_loop_counts (largest_id : N) (front tail : list N)
    (offsets : list Z) db :
  Forall (fun m => m <> largest_id) front ->
  let db' := snd (generate_offsets_loop coord_eqb largest_id
                    (front ++ largest_id :: tail) offsets db) in
  (forall m, m <> largest_id -> count_node m db' = count_node m db)
  /\ length db' <= length db
  /\ length db <= length db' + length front.
Proof.
  intros Hfront. revert offsets db.
  induction Hfront as [|n front Hn _ IH]; intros offsets db; simpl.
  - rewrite N.eqb_refl. simpl. repeat split; auto; lia.
  - apply N.eqb_neq in Hn. rewrite Hn.
    destruct (offset_aux_counts n largest_id db) as (Hc & Hle & Hge).
    destruct (offset_aux coord_eqb n largest_id db) as [o db1].
    simpl in Hc, Hle, Hge.
    destruct (IH (offsets ++ [o]) db1) as (Hc' & Hle' & Hge').
    repeat split.
    + intros m Hm. now rewrite Hc', Hc.
    + lia.
    + lia.
Qed.

Lemma generate_offsets_loop_of_ok (front : list N) (largest_id : N)
    (offsets : list Z) db db' :
  generate_offsets coord_eqb [] (front ++ [largest_id]) db = Ok offsets db' ->
  db' = snd (generate_offsets_loop coord_eqb largest_id
               (front ++ [largest_id]) [] db).
Proof.
  unfold generate_offsets. rewrite vec_at_last.
  destruct (generate_offsets_loop coord_eqb largest_id
              (front ++ [largest_id]) [] db) as [o d].
  intros H. now injection H as _ <-.
Qed.

Lemma length_corrected (largest_id : N) (offsets : list Z)
    (tracker : list N) db :
  length (map (corrected largest_id offsets tracker) db) = length db.
Proof. apply length_map. Qed.

(** X2: reconciliation of a non-empty database returns; it drops at most
    one record per node other than the reference node, and for every node
    other than the reference node the number of records stays the same:
    only records of the reference node are ever erased. *)
Theorem eventual_consistency_erases_reference_only db :
  db <> [] ->
  exists db',
    eventual_consistency coord_eqb db = Ok tt db'
    /\ length db' <= length db
    /\ length db
       <= length db'
          + (length (sort_nodes (get_node_count [] (sortByTime db))) - 1)
    /\ (forall m,
          m <> max_node (sort_nodes (get_node_count [] (sortByTime db))) ->
          count_node m db' = count_node m db).
Proof.
  intros Hdb.
  destruct (reconciliation_steps coord_eqb db Hdb)
    as (front & largest_id & offsets & db1 & Etr & Hfront & Egen & Hlen
        & Hnodes & Ecorr).
  pose proof (sortByTime_perm db) as Hperm.
  assert (Hne : Forall (fun m => m <> largest_id) front).
  { eapply Forall_impl; [|exact Hfront]. simpl. intros; lia. }
  pose proof (generate_offsets_loop_counts largest_id front [] []
                (sortByTime db) Hne) as Hcounts.
  rewrite <- (generate_offsets_loop_of_ok front largest_id offsets
                (sortByTime db) db1 Egen) in Hcounts.
  simpl in Hcounts. destruct Hcounts as (Hc & Hle & Hge).
  rewrite (Permutation_length Hperm) in Hle, Hge.
  exists (map (corrected largest_id offsets (front ++ [largest_id])) db1).
  rewrite Etr, (max_node_last front largest_id Hfront).
  split.
  { unfold eventual_consistency. rewrite Etr, Egen. simpl. exact Ecorr. }
  rewrite length_corrected, length_app. simpl.
  split; [exact Hle|]. split; [lia|].
  intros m Hm. rewrite count_node_corrected, (Hc m Hm).
  now apply count_node_perm.
Qed.

(** X3: every record that reconciliation leaves is a record of the
    database it started from, with the same drone id, node id, latitude,
    longitude and flags: nothing but timestamps is rewritten and no record
    is made up. *)
Theorem eventual_consistency_rewrites_timestamps_only db :
  db <> [] ->
  exists db',
    eventual_consistency coord_eqb db = Ok tt db'
    /\ Forall (fun p' =>
         exists p, In p db /\ p' = set_timestamp p (timestamp p')) db'.
Proof.
  intros Hdb.
  destruct (reconciliation_steps coord_eqb db Hdb)
    as (front & largest_id & offsets & db1 & Etr & Hfront & Egen & Hlen
        & Hnodes & Ecorr).
  exists (map (corrected largest_id offsets (front ++ [largest_id])) db1).
  split.
  { unfold eventual_consistency. rewrite Etr, Egen. simpl. exact Ecorr. }
  assert (Hin : Forall (fun p => In p db) db1).
  { destruct (generate_offsets_spec coord_eqb front largest_id
                (sortByTime db) Hfront) as (offsets' & db1' & Egen' & _ & HP).
    rewrite Egen in Egen'. injection Egen' as _ <-.
    apply HP. apply Forall_forall. intros p Hp.
    eapply Permutation_in; [apply sortByTime_perm|exact Hp]. }
  apply Forall_forall. intros p' Hp'.
  apply in_map_iff in Hp' as (p & <- & Hp).
  rewrite Forall_forall in Hin. exists p. split; [auto|].
  unfold corrected. destruct (node_id p =? largest_id)%N.
  - now destruct p.
  - reflexivity.
Qed.

End Conservation.

(** ** Reconciliation: the tracker and its limits *)

Section Tracker_limits.

Context {coord : Type} (coord_eqb : coord -> coord -> bool).

Implicit Types (p q a r : DronePlot coord) (db : Store coord).

(** X4: started on an empty tracker, [get_node_count] lists every node id
    that occurs in the database, and lists it once. *)
Theorem get_node_count_each_node_once db :
  NoDup (get_node_count [] db)
  /\ (forall n, In n (get_node_count [] db)
                <-> exists p, In p db /\ node_id p = n).
Proof.
  split.
  - apply get_node_count_nodup. constructor.
  - intros n. rewrite get_node_count_in, in_map_iff. simpl.
    split.
    + intros [[]|(p & E & Hp)]. eauto.
    + intros (p & Hp & E). right. eauto.
Qed.











End Tracker_limits.

(** ** Replication: a batch from one server to the next *)

Lemma count_prefix_round_trip (count : N) (records : list byte) :
  (count < 2 ^ 32)%N ->
  read_count (count_bytes count ++ records) = count.
Proof.
  intros H. unfold count_bytes, read_count. cbn [app].
  rewrite !byte_of_N_to_N. now apply count_limbs.
Qed.

(** X7: the count that [queueNewPlots] puts in front of a batch is the
    count that [addReplDronePlots] reads back, for every count an
    [unsigned int] can hold and whatever bytes follow. *)
Theorem read_count_of_count_bytes (count : N) (records : list byte) :
  (count < 2 ^ 32)%N ->
  read_count (count_bytes count ++ records) = count.
Proof. apply count_prefix_round_trip. Qed.

Section Batch_facts.

Context {coord : Type}.
Variable getDataSize : N.
Variable serialize : DronePlot coord -> list byte.
Variable deserialize : list byte -> DronePlot coord.
Variable DBFLAG_NEW : N.

Implicit Types (p : DronePlot coord) (db : Store coord) (sv : Server coord).

Lemma vec_range_middle {A : Type} (pre mid post : list A) :
  vec_range (pre ++ mid ++ post) (N.of_nat (length pre))
    (N.of_nat (length mid)) = Some mid.
Proof.
  unfold vec_range.
  destruct (N.leb_spec (N.of_nat (length pre) + N.of_nat (length mid))
              (N.of_nat (length (pre ++ mid ++ post)))) as [_|H].
  - rewrite !Nat2N.id, skipn_app, skipn_all, Nat.sub_diag. simpl.
    now rewrite firstn_app, firstn_all, Nat.sub_diag, firstn_O, app_nil_r.
  - rewrite !length_app in H. lia.
Qed.

Lemma addSingleDronePlot_appends (data : list byte) db :
  addSingleDronePlot deserialize DBFLAG_NEW data db
  = db ++ [ingested_plot deserialize DBFLAG_NEW data].
Proof. reflexivity. Qed.

Section Codec.

Hypothesis getDataSize_pos : (0 < getDataSize)%N.
Hypothesis serialize_size :
  forall p, N.of_nat (length (serialize p)) = getDataSize.

Lemma length_marshalled (plots : Store coord) :
  N.of_nat (length (concat (map serialize plots)))
  = (N.of_nat (length plots) * getDataSize)%N.
Proof.
  induction plots as [|p rest IH]; [reflexivity|].
  cbn [map concat length].
  rewrite length_app, Nat2N.inj_add, Nat2N.inj_succ, IH, serialize_size.
  lia.
Qed.

Lemma addReplDronePlots_loop_marshalled (plots : Store coord)
    (pre : list byte) db :
  addReplDronePlots_loop getDataSize deserialize DBFLAG_NEW
    (length plots) (N.of_nat (length pre))
    (pre ++ concat (map serialize plots)) db
  = Ok tt
      (db ++ map (fun p => ingested_plot deserialize DBFLAG_NEW (serialize p))
               plots).
Proof.
  revert pre db. induction plots as [|p rest IH]; intros pre db.
  - simpl. now rewrite app_nil_r.
  - cbn [length map concat addReplDronePlots_loop].
    assert (Hr : vec_range (pre ++ serialize p ++ concat (map serialize rest))
                   (N.of_nat (length pre)) getDataSize
                 = Some (serialize p)).
    { rewrite <- (serialize_size p). apply vec_range_middle. }
    rewrite Hr.
    replace (N.of_nat (length pre) + getDataSize)%N
      with (N.of_nat (length (pre ++ serialize p)))
      by (rewrite length_app, Nat2N.inj_add, serialize_size; reflexivity).
    replace (pre ++ serialize p ++ concat (map serialize rest))
      with ((pre ++ serialize p) ++ concat (map serialize rest))
      by (now rewrite <- app_assoc).
    rewrite IH, addSingleDronePlot_appends, <- app_assoc. reflexivity.
Qed.

(** X8: what one server broadcasts, the next one takes in.  When records
    are pending, [queueNewPlots] sends one payload, and [addReplDronePlots]
    accepts that payload on any database, appending one record per pending
    record, in order, each decoded from the bytes [serialize] gave. *)
Theorem broadcast_batch_is_ingested sv db :
  new_plots DBFLAG_NEW (plotdb sv) <> [] ->
  (N.of_nat (length (new_plots DBFLAG_NEW (plotdb sv))) < 2 ^ 32)%N ->
  exists sv' payload,
    queueNewPlots getDataSize serialize DBFLAG_NEW sv
    = Ok (N.of_nat (length (new_plots DBFLAG_NEW (plotdb sv)))) sv'
    /\ sent sv' = sent sv ++ [payload]
    /\ addReplDronePlots getDataSize deserialize DBFLAG_NEW payload db
       = Ok tt
           (db ++ map (fun p =>
                         ingested_plot deserialize DBFLAG_NEW (serialize p))
                    (new_plots DBFLAG_NEW (plotdb sv))).
Proof.
  intros Hpending Hfits.
  pose proof (queueNewPlots_spec getDataSize serialize DBFLAG_NEW
                getDataSize_pos serialize_size sv) as Hq.
  cbv zeta in Hq. rewrite (to_uint_small _ Hfits) in Hq.
  set (plots := new_plots DBFLAG_NEW (plotdb sv)) in *.
  destruct (N.eqb_spec (N.of_nat (length plots)) 0) as [E|_].
  { destruct plots; [congruence|discriminate]. }
  exists (mkServer (map (after_scan DBFLAG_NEW) (plotdb sv))
            (sent sv ++ [count_bytes (N.of_nat (length plots))
                         ++ concat (map serialize plots)])
            (last_repl sv)),
         (count_bytes (N.of_nat (length plots))
          ++ concat (map serialize plots)).
  split; [exact Hq|]. split; [reflexivity|].
  unfold addReplDronePlots.
  assert (Hlen : N.of_nat (length (count_bytes (N.of_nat (length plots))
                                   ++ concat (map serialize plots)))
                 = (4 + N.of_nat (length plots) * getDataSize)%N).
  { rewrite length_app, Nat2N.inj_add, length_marshalled. reflexivity. }
  rewrite Hlen.
  destruct (N.ltb_spec (4 + N.of_nat (length plots) * getDataSize) 4)
    as [Hlt|_]; [lia|].
  replace (4 + N.of_nat (length plots) * getDataSize - 4)%N
    with (N.of_nat (length plots) * getDataSize)%N by lia.
  rewrite N.Div0.mod_mul, N.eqb_refl. cbn [negb].
  rewrite (count_prefix_round_trip _ _ Hfits), Nat2N.id.
  apply (addReplDronePlots_loop_marshalled plots
           (count_bytes (N.of_nat (length plots)))).
Qed.

End Codec.

End Batch_facts.

(** ** Replication: scans that follow or fail *)

Section Scan_facts.

Context {coord : Type}.
Variable getDataSize : N.
Variable serialize : DronePlot coord -> list byte.
Variable DBFLAG_NEW : N.

Implicit Types (p : DronePlot coord) (db : Store coord) (sv : Server coord).

Lemma new_plots_after_scan db :
  new_plots DBFLAG_NEW (map (after_scan DBFLAG_NEW) db) = [].
Proof.
  unfold new_plots. induction db as [|p rest IH]; simpl; [reflexivity|].
  unfold after_scan at 1.
  destruct (isFlagSet p DBFLAG_NEW) eqn:E.
  - now rewrite clrFlags_clears.
  - now rewrite E.
Qed.

(** X9: a scan that follows a scan finds nothing: [queueNewPlots] run on
    the server it has just left returns 0, sends nothing and changes
    nothing. *)
Theorem queueNewPlots_second_scan (count : N) sv sv' :
  (0 < getDataSize)%N ->
  (forall p, N.of_nat (length (serialize p)) = getDataSize) ->
  queueNewPlots getDataSize serialize DBFLAG_NEW sv = Ok count sv' ->
  queueNewPlots getDataSize serialize DBFLAG_NEW sv' = Ok 0%N sv'.
Proof.
  intros Hpos Hsize Hfirst.
  assert (Hdb : plotdb sv' = map (after_scan DBFLAG_NEW) (plotdb sv)).
  { pose proof (queueNewPlots_spec getDataSize serialize DBFLAG_NEW
                  Hpos Hsize sv) as Hq.
    cbv zeta in Hq. rewrite Hq in Hfirst.
    destruct (_ =? 0)%N; injection Hfirst as _ <-; reflexivity. }
  pose proof (queueNewPlots_spec getDataSize serialize DBFLAG_NEW
                Hpos Hsize sv') as Hq.
  cbv zeta in Hq. rewrite Hq, Hdb, new_plots_after_scan. simpl.
  rewrite after_scan_unflagged by apply new_plots_after_scan.
  rewrite <- Hdb. now destruct sv'.
Qed.

Lemma queueNewPlots_loop_throw (pre : Store coord) p (rest : Store coord) :
  new_plots DBFLAG_NEW pre = [] ->
  isFlagSet p DBFLAG_NEW = true ->
  (N.of_nat (length (serialize p)) mod getDataSize <> 0)%N ->
  queueNewPlots_loop getDataSize serialize DBFLAG_NEW [] 0%N
    (pre ++ p :: rest)
  = Throw MarshallingIssue (pre ++ clrFlags p DBFLAG_NEW :: rest).
Proof.
  intros Hpre Hp Hsize. unfold new_plots in Hpre.
  induction pre as [|q pre IH]; simpl.
  - rewrite Hp. simpl.
    now destruct (N.eqb_spec (N.of_nat (length (serialize p))
                              mod getDataSize) 0).
  - simpl in Hpre. destruct (isFlagSet q DBFLAG_NEW); [discriminate|].
    simpl. now rewrite (IH Hpre).
Qed.

(** X10: when the bytes that [serialize] appends for the first pending
    record do not make a whole number of records, [queueNewPlots] throws
    with that record's flag already cleared and nothing sent: the record
    is no longer pending although it never went out. *)
Theorem queueNewPlots_marshalling_throw sv (pre : Store coord) p
    (rest : Store coord) :
  (0 < getDataSize)%N ->
  plotdb sv = pre ++ p :: rest ->
  new_plots DBFLAG_NEW pre = [] ->
  isFlagSet p DBFLAG_NEW = true ->
  (N.of_nat (length (serialize p)) mod getDataSize <> 0)%N ->
  queueNewPlots getDataSize serialize DBFLAG_NEW sv
  = Throw MarshallingIssue
      (mkServer (pre ++ clrFlags p DBFLAG_NEW :: rest) (sent sv)
         (last_repl sv))
  /\ isFlagSet (clrFlags p DBFLAG_NEW) DBFLAG_NEW = false.
Proof.
  intros _ Hdb Hpre Hp Hsize. split; [|apply clrFlags_clears].
  unfold queueNewPlots.
  now rewrite Hdb, (queueNewPlots_loop_throw pre p rest Hpre Hp Hsize).
Qed.

End Scan_facts.

(** ** Replication: what ingestion leaves alone *)

Section Drain_facts.

Context {coord : Type}.
Variable getDataSize : N.
Variable deserialize : list byte -> DronePlot coord.
Variable DBFLAG_NEW : N.

Implicit Types (db : Store coord) (sv : Server coord).

Lemma addReplDronePlots_loop_appends (todo : nat) (dptr : N)
    (data : list byte) db :
  leaves (fun db' => exists added, db' = db ++ added)
    (addReplDronePlots_loop getDataSize deserialize DBFLAG_NEW
       todo dptr data db).
Proof.
  revert dptr db. induction todo as [|todo IH]; intros dptr db; simpl.
  - exists []. now rewrite app_nil_r.
  - destruct (vec_range data dptr getDataSize) as [plot|]; [|exact I].
    specialize (IH (dptr + getDataSize)%N
                   (addSingleDronePlot deserialize DBFLAG_NEW plot db)).
    destruct (addReplDronePlots_loop _ _ _ _ _ _ _) as [u db'|e db'|];
      simpl in *; auto;
      destruct IH as [added ->]; unfold addSingleDronePlot, addPlot;
      rewrite <- app_assoc; eauto.
Qed.

Lemma addReplDronePlots_appends (data : list byte) db :
  leaves (fun db' => exists added, db' = db ++ added)
    (addReplDronePlots getDataSize deserialize DBFLAG_NEW data db).
Proof.
  unfold addReplDronePlots.
  destruct (_ <? 4)%N; [exists []; now rewrite app_nil_r|].
  destruct (negb _); [exists []; now rewrite app_nil_r|].
  apply addReplDronePlots_loop_appends.
Qed.

(** X11: draining the inbound queue only appends.  Whether the drain
    returns or a payload makes it throw, the server it leaves has the same
    sent payloads and the same [_last_repl], and its database starts with
    the database it had: no record is changed, moved or removed. *)
Theorem replicate_drain_only_appends (inbound : list (list byte)) sv :
  leaves (fun sv' =>
            sent sv' = sent sv /\ last_repl sv' = last_repl sv
            /\ exists added, plotdb sv' = plotdb sv ++ added)
    (replicate_drain getDataSize deserialize DBFLAG_NEW inbound sv).
Proof.
  revert sv. induction inbound as [|data more IH]; intros sv; simpl.
  - repeat split. exists []. now rewrite app_nil_r.
  - pose proof (addReplDronePlots_appends data (plotdb sv)) as Hadd.
    destruct (addReplDronePlots getDataSize deserialize DBFLAG_NEW data
                (plotdb sv)) as [u db'|e db'|]; simpl in *;
      [|repeat split; auto|exact I].
    destruct Hadd as [added ->].
    specialize (IH (mkServer (plotdb sv ++ added) (sent sv) (last_repl sv))).
    destruct (replicate_drain _ _ _ _ _) as [u' sv'|e' sv'|];
      simpl in *; auto;
      destruct IH as (Hs & Hl & added' & Hdb);
      rewrite Hs, Hl, Hdb, <- app_assoc; eauto.
Qed.

End Drain_facts.

(** ** More sample runs *)

Lemma eventual_consistency_erases_reference_only_run :
  store_ahead <> []
  /\ exists db',
       eventual_consistency Z.eqb store_ahead = Ok tt db'
       /\ length db' <= length store_ahead
       /\ length store_ahead
          <= length db'
             + (length (sort_nodes
                          (get_node_count [] (sortByTime store_ahead))) - 1)
       /\ (forall m,
             m <> max_node
                    (sort_nodes (get_node_count [] (sortByTime store_ahead))) ->
             count_node m db' = count_node m store_ahead).
Proof.
  split; [discriminate|].
  apply (eventual_consistency_erases_reference_only Z.eqb store_ahead).
  discriminate.
Defined.

Lemma eventual_consistency_rewrites_timestamps_only_run :
  store_ahead <> []
  /\ exists db',
       eventual_consistency Z.eqb store_ahead = Ok tt db'
       /\ Forall (fun p' =>
            exists p, In p store_ahead
                      /\ p' = set_timestamp p (timestamp p')) db'.
Proof.
  split; [discriminate|].
  apply (eventual_consistency_rewrites_timestamps_only Z.eqb store_ahead).
  discriminate.
Defined.



Lemma read_count_of_count_bytes_run :
  (258 < 2 ^ 32)%N /\ read_count (count_bytes 258 ++ [x07]) = 258%N.
Proof.
  split; [reflexivity|].
  apply (read_count_of_count_bytes 258 [x07]). reflexivity.
Defined.

Lemma broadcast_batch_is_ingested_run :
  new_plots 1%N (plotdb sample_server) <> []
  /\ exists sv' payload,
       queueNewPlots 2%N sample_serialize 1%N sample_server
       = Ok (N.of_nat (length (new_plots 1%N (plotdb sample_server)))) sv'
       /\ sent sv' = sent sample_server ++ [payload]
       /\ addReplDronePlots 2%N sample_deserialize 1%N payload store12
          = Ok tt
              (store12
               ++ map (fun p =>
                         ingested_plot sample_deserialize 1%N
                           (sample_serialize p))
                    (new_plots 1%N (plotdb sample_server))).
Proof.
  split; [discriminate|].
  apply (broadcast_batch_is_ingested 2%N sample_serialize sample_deserialize
           1%N eq_refl (fun p => eq_refl) sample_server store12).
  - discriminate.
  - reflexivity.
Defined.

Lemma queueNewPlots_second_scan_run :
  queueNewPlots 2%N sample_serialize 1%N sample_server
  = Ok 2%N sample_server_scanned
  /\ queueNewPlots 2%N sample_serialize 1%N sample_server_scanned
     = Ok 0%N sample_server_scanned.
Proof.
  split; [reflexivity|].
  apply (queueNewPlots_second_scan 2%N sample_serialize 1%N 2%N
           sample_server sample_server_scanned).
  - reflexivity.
  - intros p. reflexivity.
  - reflexivity.
Defined.

Lemma queueNewPlots_marshalling_throw_run :
  (N.of_nat (length (odd_serialize plot_pending)) mod 2 <> 0)%N
  /\ queueNewPlots 2%N odd_serialize 1%N
       (mkServer [plot12_node1; plot_pending] [] 0%Z)
     = Throw MarshallingIssue
         (mkServer [plot12_node1; clrFlags plot_pending 1%N] [] 0%Z)
  /\ isFlagSet (clrFlags plot_pending 1%N) 1%N = false.
Proof.
  assert (H : (N.of_nat (length (odd_serialize plot_pending)) mod 2 <> 0)%N).
  { simpl. discriminate. }
  split; [exact H|].
  apply (queueNewPlots_marshalling_throw 2%N odd_serialize 1%N
           (mkServer [plot12_node1; plot_pending] [] 0%Z)
           [plot12_node1] plot_pending []).
  - reflexivity.
  - reflexivity.
  - reflexivity.
  - reflexivity.
  - exact H.
Defined.
